(** * Notebook: note persistence and state reconciliation

    A shallow embedding of the note repository of [src/components/notebook.tsx]
    and of the card editor of [src/components/note-card.tsx]: the notes query,
    the four mutations (create, update, delete, move), the filter pipeline and
    the draft effects of the creation dialog, over a model of [localStorage]
    and of the JSON text stored under the key [notes].

    A [string] holds the UTF-8 bytes of a text: a character of the text is
    one to four bytes.  What the environment gives ([uuidv4()], the readings
    of the clock, the case tables behind [toLowerCase]) is a parameter of the
    function that uses it. *)

From Stdlib Require Import ZArith Ascii String List Lia.
From stdpp Require Import base option strings list gmap sorting.

Open Scope string_scope.

(** ** Data model *)

(** [Note.items] entries. *)
Record ChecklistItem := mkItem {
  item_id : string;
  item_text : string;
  item_checked : bool
}.

(** [export type Note]: [items] is optional ([None] is an absent key). *)
Record Note := mkNote {
  id : string;
  title : string;
  content : string;
  createdAt : string;
  updatedAt : string;
  color : string;
  tags : list string;
  items : option (list ChecklistItem)
}.

(** [Omit<Note, "id" | "createdAt" | "updatedAt">]: the fields edited in the
    creation dialog. *)
Record NoteFields := mkFields {
  f_title : string;
  f_content : string;
  f_color : string;
  f_tags : list string;
  f_items : option (list ChecklistItem)
}.

#[global] Instance ChecklistItem_eq_dec : EqDecision ChecklistItem.
Proof. solve_decision. Defined.
#[global] Instance Note_eq_dec : EqDecision Note.
Proof. solve_decision. Defined.
#[global] Instance NoteFields_eq_dec : EqDecision NoteFields.
Proof. solve_decision. Defined.

(** What an entry of the [notes] array can hold at run time.  The type
    [Note[]] promises objects only; [moveNote] can insert [undefined] and
    [JSON.parse] can deliver [null]. *)
Inductive Slot :=
  | Undefined
  | Null
  | Obj (n : Note).

#[global] Instance Slot_eq_dec : EqDecision Slot.
Proof. solve_decision. Defined.

Definition COLORS : list string :=
  [ "bg-blue-200 border-blue-400";
    "bg-green-200 border-green-400";
    "bg-yellow-200 border-yellow-400";
    "bg-red-200 border-red-400";
    "bg-purple-200 border-purple-400";
    "bg-pink-200 border-pink-400" ].

(** [COLORS[0]]. *)
Definition COLORS_0 : string := default EmptyString (COLORS !! 0%nat).

(** A note with the given id and title, for the examples. *)
Definition sample (i t : string) : Note :=
  mkNote i t EmptyString "2024-05-01T10:00:00.000Z" "2024-05-01T10:00:00.000Z"
    COLORS_0 [] (Some []).

(** A clock for the examples: its first reading is [t], the later ones are
    [t']. *)
Definition clock (t t' : string) : nat → string :=
  fun k => match k with O => t | S _ => t' end.

(** ** JSON values and JSON text *)

Module Json.

#[local] Set Warnings "-register-all".

(** The values [JSON.parse] can return.  A number is kept as its literal
    (no note field is a number; floating point is not modelled). *)
Inductive JSON :=
  | JNull
  | JBool (b : bool)
  | JNumber (lit : string)
  | JString (s : string)
  | JArray (vs : list JSON)
  | JObject (kvs : list (string * JSON)).

Definition dquote : ascii := ascii_of_nat 34.
Definition backslash : ascii := ascii_of_nat 92.

Definition hex_digit (n : nat) : ascii :=
  ascii_of_nat (if n <? 10 then 48 + n else 87 + n)%nat.

(** One character of a quoted string, as [JSON.stringify] writes it. *)
Definition escape_char (c : ascii) : string :=
  let n := nat_of_ascii c in
  if (n =? 34)%nat then String backslash (String dquote EmptyString)
  else if (n =? 92)%nat then String backslash (String backslash EmptyString)
  else if (n =? 8)%nat then String backslash "b"
  else if (n =? 12)%nat then String backslash "f"
  else if (n =? 10)%nat then String backslash "n"
  else if (n =? 13)%nat then String backslash "r"
  else if (n =? 9)%nat then String backslash "t"
  else if (n <? 32)%nat then
    String backslash
      (String "u"%char (String "0"%char (String "0"%char
        (String (hex_digit (n / 16)) (String (hex_digit (n mod 16)) EmptyString)))))
  else String c EmptyString.

Fixpoint quote_body (s : string) : string :=
  match s with
  | EmptyString => EmptyString
  | String c s' => escape_char c +:+ quote_body s'
  end.

Definition quote (s : string) : string :=
  String dquote (quote_body s +:+ String dquote EmptyString).

(** [JSON.stringify(v)] without indentation. *)
Fixpoint print (v : JSON) : string :=
  match v with
  | JNull => "null"
  | JBool true => "true"
  | JBool false => "false"
  | JNumber lit => lit
  | JString s => quote s
  | JArray vs =>
      "[" +:+
      (fix elems (vs : list JSON) : string :=
         match vs with
         | [] => "]"
         | x :: xs =>
             match xs with
             | [] => print x +:+ "]"
             | _ :: _ => print x +:+ "," +:+ elems xs
             end
         end) vs
  | JObject kvs =>
      "{" +:+
      (fix members (kvs : list (string * JSON)) : string :=
         match kvs with
         | [] => "}"
         | (k, x) :: xs =>
             match xs with
             | [] => quote k +:+ ":" +:+ print x +:+ "}"
             | _ :: _ => quote k +:+ ":" +:+ print x +:+ "," +:+ members xs
             end
         end) kvs
  end.

(** *** Parsing *)

Definition is_ws (c : ascii) : bool :=
  let n := nat_of_ascii c in
  (n =? 32)%nat || (n =? 9)%nat || (n =? 10)%nat || (n =? 13)%nat.

Fixpoint skip_ws (s : string) : string :=
  match s with
  | String c s' => if is_ws c then skip_ws s' else s
  | EmptyString => s
  end.

Definition hex_value (c : ascii) : option nat :=
  let n := nat_of_ascii c in
  if (48 <=? n)%nat && (n <=? 57)%nat then Some (n - 48)%nat
  else if (97 <=? n)%nat && (n <=? 102)%nat then Some (n - 87)%nat
  else if (65 <=? n)%nat && (n <=? 70)%nat then Some (n - 55)%nat
  else None.

(** The bytes (UTF-8) of the code unit written [\uXXXX]. *)
Definition code_unit_bytes (n : nat) : string :=
  if (n <? 128)%nat then String (ascii_of_nat n) EmptyString
  else if (n <? 2048)%nat then
    String (ascii_of_nat (192 + n / 64))
      (String (ascii_of_nat (128 + n mod 64)) EmptyString)
  else
    String (ascii_of_nat (224 + n / 4096))
      (String (ascii_of_nat (128 + (n / 64) mod 64))
        (String (ascii_of_nat (128 + n mod 64)) EmptyString)).

Definition simple_escape (e : ascii) : option ascii :=
  let n := nat_of_ascii e in
  if (n =? 34)%nat then Some dquote
  else if (n =? 92)%nat then Some backslash
  else if (n =? 47)%nat then Some "/"%char
  else if (n =? 98)%nat then Some (ascii_of_nat 8)
  else if (n =? 102)%nat then Some (ascii_of_nat 12)
  else if (n =? 110)%nat then Some (ascii_of_nat 10)
  else if (n =? 114)%nat then Some (ascii_of_nat 13)
  else if (n =? 116)%nat then Some (ascii_of_nat 9)
  else None.

(** The characters of a string literal after its opening quote, up to and
    including the closing quote: the decoded string and the rest. *)
Fixpoint parse_chars (s : string) : option (string * string) :=
  match s with
  | EmptyString => None
  | String c rest =>
      let n := nat_of_ascii c in
      if (n =? 34)%nat then Some (EmptyString, rest)
      else if (n =? 92)%nat then
        match rest with
        | EmptyString => None
        | String e rest1 =>
            if (nat_of_ascii e =? 117)%nat then
              match rest1 with
              | String h1 (String h2 (String h3 (String h4 rest2))) =>
                  match hex_value h1, hex_value h2, hex_value h3, hex_value h4 with
                  | Some d1, Some d2, Some d3, Some d4 =>
                      match parse_chars rest2 with
                      | Some (body, tl) =>
                          Some (code_unit_bytes (((d1 * 16 + d2) * 16 + d3) * 16 + d4)
                                  +:+ body, tl)
                      | None => None
                      end
                  | _, _, _, _ => None
                  end
              | _ => None
              end
            else
              match simple_escape e with
              | Some ch =>
                  match parse_chars rest1 with
                  | Some (body, tl) => Some (String ch body, tl)
                  | None => None
                  end
              | None => None
              end
        end
      else if (n <? 32)%nat then None
      else
        match parse_chars rest with
        | Some (body, tl) => Some (String c body, tl)
        | None => None
        end
  end.

Definition is_digit (c : ascii) : bool :=
  let n := nat_of_ascii c in (48 <=? n)%nat && (n <=? 57)%nat.

Fixpoint span_digits (s : string) : string * string :=
  match s with
  | String c s' =>
      if is_digit c then let '(ds, tl) := span_digits s' in (String c ds, tl)
      else (EmptyString, s)
  | EmptyString => (EmptyString, s)
  end.

(** A number literal (optional minus sign, integer part without leading
    zero, optional fraction, optional exponent) and the rest. *)
Definition parse_number (s : string) : option (string * string) :=
  let '(sign, s1) :=
    match s with
    | String "-"%char r => ("-", r)
    | _ => (EmptyString, s)
    end in
  match s1 with
  | String d r =>
      if is_digit d then
        let '(int, s2) :=
          if (nat_of_ascii d =? 48)%nat then ("0", r)
          else let '(ds, tl) := span_digits r in (String d ds, tl) in
        let frac :=
          match s2 with
          | String "."%char r2 =>
              match span_digits r2 with
              | (EmptyString, _) => None
              | (ds, tl) => Some ("." +:+ ds, tl)
              end
          | _ => Some (EmptyString, s2)
          end in
        match frac with
        | None => None
        | Some (fr, s3) =>
            let with_exp (e : string) (r3 : string) :=
              let '(sg, r4) :=
                match r3 with
                | String "+"%char r5 => ("+", r5)
                | String "-"%char r5 => ("-", r5)
                | _ => (EmptyString, r3)
                end in
              match span_digits r4 with
              | (EmptyString, _) => None
              | (ds, tl) => Some (sign +:+ int +:+ fr +:+ e +:+ sg +:+ ds, tl)
              end in
            match s3 with
            | String "e"%char r3 => with_exp "e" r3
            | String "E"%char r3 => with_exp "E" r3
            | _ => Some (sign +:+ int +:+ fr, s3)
            end
        end
      else None
  | EmptyString => None
  end.

(** [expect lit s]: [s] without its prefix [lit]. *)
Fixpoint expect (lit s : string) : option string :=
  match lit with
  | EmptyString => Some s
  | String c lit' =>
      match s with
      | String d s' => if Ascii.eqb c d then expect lit' s' else None
      | EmptyString => None
      end
  end.

(** [starts_with c s]: [s] without its first character when that is [c]. *)
Definition starts_with (c : ascii) (s : string) : option string :=
  match s with
  | String d tl => if Ascii.eqb c d then Some tl else None
  | EmptyString => None
  end.

(** A JSON value at the head of [s] (after white space) and the rest.  The
    fuel bounds the nesting depth plus the number of array elements and
    object members; the length of the text is enough. *)
Fixpoint parse_value (fuel : nat) (s : string) : option (JSON * string) :=
  match fuel with
  | O => None
  | S fuel =>
      match skip_ws s with
      | EmptyString => None
      | String c rest =>
          let n := nat_of_ascii c in
          if (n =? 110)%nat then
            (fun tl => (JNull, tl)) <$> expect "ull" rest
          else if (n =? 116)%nat then
            (fun tl => (JBool true, tl)) <$> expect "rue" rest
          else if (n =? 102)%nat then
            (fun tl => (JBool false, tl)) <$> expect "alse" rest
          else if (n =? 34)%nat then
            (fun '(str, tl) => (JString str, tl)) <$> parse_chars rest
          else if (n =? 91)%nat then
            match starts_with "]" (skip_ws rest) with
            | Some tl => Some (JArray [], tl)
            | None => (fun '(vs, tl) => (JArray vs, tl)) <$> parse_elements fuel rest
            end
          else if (n =? 123)%nat then
            match starts_with "}" (skip_ws rest) with
            | Some tl => Some (JObject [], tl)
            | None => (fun '(kvs, tl) => (JObject kvs, tl)) <$> parse_members fuel rest
            end
          else
            (fun '(lit, tl) => (JNumber lit, tl)) <$> parse_number (String c rest)
      end
  end
with parse_elements (fuel : nat) (s : string) : option (list JSON * string) :=
  match fuel with
  | O => None
  | S fuel =>
      match parse_value fuel s with
      | None => None
      | Some (v, tl) =>
          match starts_with "," (skip_ws tl) with
          | Some tl' =>
              (fun '(vs, tl'') => (v :: vs, tl'')) <$> parse_elements fuel tl'
          | None =>
              match starts_with "]" (skip_ws tl) with
              | Some tl' => Some ([v], tl')
              | None => None
              end
          end
      end
  end
with parse_members (fuel : nat) (s : string)
    : option (list (string * JSON) * string) :=
  match fuel with
  | O => None
  | S fuel =>
      match starts_with dquote (skip_ws s) with
      | None => None
      | Some rest =>
          match parse_chars rest with
          | None => None
          | Some (k, tl) =>
              match starts_with ":" (skip_ws tl) with
              | None => None
              | Some tl0 =>
                  match parse_value fuel tl0 with
                  | None => None
                  | Some (v, tl1) =>
                      match starts_with "," (skip_ws tl1) with
                      | Some tl' =>
                          (fun '(kvs, tl'') => ((k, v) :: kvs, tl''))
                            <$> parse_members fuel tl'
                      | None =>
                          match starts_with "}" (skip_ws tl1) with
                          | Some tl' => Some ([(k, v)], tl')
                          | None => None
                          end
                      end
                  end
              end
          end
      end
  end.

(** [JSON.parse(text)]: [None] is the [SyntaxError]. *)
Definition parse (text : string) : option JSON :=
  match parse_value (String.length text) text with
  | Some (v, tl) =>
      match skip_ws tl with
      | EmptyString => Some v
      | String _ _ => None
      end
  | None => None
  end.

(** *** Measures used to relate [print] and [parse] *)

(** Values without number literals: all that notes are written as. *)
Fixpoint plain (v : JSON) : bool :=
  match v with
  | JNumber _ => false
  | JArray vs => forallb plain vs
  | JObject kvs => forallb (fun kv => plain kv.2) kvs
  | _ => true
  end.

(** Fuel that [parse_value] needs on [print v]. *)
Fixpoint size (v : JSON) : nat :=
  match v with
  | JArray vs => S (list_sum (map (fun x => S (size x)) vs))
  | JObject kvs => S (list_sum (map (fun kv => S (size kv.2)) kvs))
  | _ => 1
  end.

Definition size_elems (vs : list JSON) : nat :=
  list_sum (map (fun x => S (size x)) vs).

Definition size_members (kvs : list (string * JSON)) : nat :=
  list_sum (map (fun kv => S (size kv.2)) kvs).

(** The text [print] writes after the opening bracket of an array. *)
Definition print_elems (vs : list JSON) : string :=
  (fix elems (vs : list JSON) : string :=
     match vs with
     | [] => "]"
     | x :: xs =>
         match xs with
         | [] => print x +:+ "]"
         | _ :: _ => print x +:+ "," +:+ elems xs
         end
     end) vs.

(** The text [print] writes after the opening brace of an object. *)
Definition print_members (kvs : list (string * JSON)) : string :=
  (fix members (kvs : list (string * JSON)) : string :=
     match kvs with
     | [] => "}"
     | (k, x) :: xs =>
         match xs with
         | [] => quote k +:+ ":" +:+ print x +:+ "}"
         | _ :: _ => quote k +:+ ":" +:+ print x +:+ "," +:+ members xs
         end
     end) kvs.

Section JSON_induction.
Variable P : JSON → Prop.
Hypothesis Hnull : P JNull.
Hypothesis Hbool : ∀ b, P (JBool b).
Hypothesis Hnum : ∀ lit, P (JNumber lit).
Hypothesis Hstr : ∀ s, P (JString s).
Hypothesis Harr : ∀ vs, Forall P vs → P (JArray vs).
Hypothesis Hobj : ∀ kvs, Forall (fun kv => P kv.2) kvs → P (JObject kvs).

(** Induction through the lists of an array and of an object. *)
Fixpoint JSON_nested_ind (v : JSON) : P v :=
  match v with
  | JNull => Hnull
  | JBool b => Hbool b
  | JNumber lit => Hnum lit
  | JString s => Hstr s
  | JArray vs =>
      Harr vs ((fix go (vs : list JSON) : Forall P vs :=
                  match vs with
                  | [] => List.Forall_nil P
                  | x :: xs => @List.Forall_cons _ P x xs (JSON_nested_ind x) (go xs)
                  end) vs)
  | JObject kvs =>
      Hobj kvs ((fix go (kvs : list (string * JSON))
                   : Forall (fun kv => P kv.2) kvs :=
                  match kvs with
                  | [] => List.Forall_nil _
                  | (k, x) :: xs =>
                      @List.Forall_cons _ (fun kv => P kv.2) (k, x) xs
                        (JSON_nested_ind x) (go xs)
                  end) kvs)
  end.
End JSON_induction.

End Json.

Import Json.


(** ** Notes as JSON *)

(** The JSON value [JSON.stringify] writes for a checklist item. *)
Definition encode_item (i : ChecklistItem) : JSON :=
  JObject [ ("id", JString (item_id i));
            ("text", JString (item_text i));
            ("checked", JBool (item_checked i)) ].

(** The JSON value written for a note: the keys in the order [createNote]
    builds the object; an [undefined] [items] is left out. *)
Definition encode_note (n : Note) : JSON :=
  JObject
    ([ ("id", JString (id n));
       ("createdAt", JString (createdAt n));
       ("updatedAt", JString (updatedAt n));
       ("title", JString (title n));
       ("content", JString (content n));
       ("color", JString (color n));
       ("tags", JArray (JString <$> tags n)) ]
     ++ match items n with
        | Some its => [ ("items", JArray (encode_item <$> its)) ]
        | None => []
        end)%list.

(** Inside an array [JSON.stringify] writes [null] for [undefined]. *)
Definition encode_slot (s : Slot) : JSON :=
  match s with
  | Undefined => JNull
  | Null => JNull
  | Obj n => encode_note n
  end.

(** What an entry is read back as once it was written. *)
Definition stored_as (s : Slot) : Slot :=
  match s with
  | Undefined => Null
  | _ => s
  end.

(** [JSON.stringify(updatedNotes)]. *)
Definition JSON_stringify (notes : list Slot) : string :=
  print (JArray (encode_slot <$> notes)).

(** Property lookup on a parsed object: of a repeated key the last one
    counts. *)
Fixpoint get (k : string) (kvs : list (string * JSON)) : option JSON :=
  match kvs with
  | [] => None
  | (k', v) :: rest =>
      match get k rest with
      | Some w => Some w
      | None => if String.eqb k k' then Some v else None
      end
  end.

Definition as_string (v : JSON) : option string :=
  match v with JString s => Some s | _ => None end.

Definition as_bool (v : JSON) : option bool :=
  match v with JBool b => Some b | _ => None end.

Definition decode_item (v : JSON) : option ChecklistItem :=
  match v with
  | JObject kvs =>
      i ← get "id" kvs ≫= as_string;
      t ← get "text" kvs ≫= as_string;
      c ← get "checked" kvs ≫= as_bool;
      Some (mkItem i t c)
  | _ => None
  end.

(** Reading a parsed value at the type [Note] (the code casts, it does not
    check): [None] when the value has another shape.  Keys the type does not
    name are not part of the model. *)
Definition decode_note (v : JSON) : option Note :=
  match v with
  | JObject kvs =>
      i ← get "id" kvs ≫= as_string;
      t ← get "title" kvs ≫= as_string;
      c ← get "content" kvs ≫= as_string;
      ca ← get "createdAt" kvs ≫= as_string;
      ua ← get "updatedAt" kvs ≫= as_string;
      col ← get "color" kvs ≫= as_string;
      tgs ← match get "tags" kvs with
            | Some (JArray vs) => mapM as_string vs
            | _ => None
            end;
      its ← match get "items" kvs with
            | None => Some None
            | Some (JArray vs) => Some <$> mapM decode_item vs
            | Some _ => None
            end;
      Some (mkNote i t c ca ua col tgs its)
  | _ => None
  end.

Definition decode_slot (v : JSON) : option Slot :=
  match v with
  | JNull => Some Null
  | _ => Obj <$> decode_note v
  end.

(** Reading a parsed value at the type [Note[]]. *)
Definition decode_notes (v : JSON) : option (list Slot) :=
  match v with
  | JArray vs => mapM decode_slot vs
  | _ => None
  end.

(** The entries of an array when all of them are note objects. *)
Definition as_notes (l : list Slot) : option (list Note) :=
  mapM (fun s => match s with Obj n => Some n | _ => None end) l.

(** ** Storage and the notes query *)

(** [localStorage]: string keys, string values. *)
Abbreviation Storage := (gmap string string).

Definition getItem (key : string) (ls : Storage) : option string := ls !! key.

Definition setItem (key value : string) (ls : Storage) : Storage :=
  <[key := value]> ls.

Inductive Exn := SyntaxError.

Inductive Outcome (A : Type) :=
  | Returns (a : A)
  | Throws (e : Exn).
Arguments Returns {A} a.
Arguments Throws {A} e.

(** The [queryFn] of the notes query:
    [savedNotes ? JSON.parse(savedNotes) : []]
    (the empty string is falsy). *)
Definition queryFn (ls : Storage) : Outcome JSON :=
  match getItem "notes" ls with
  | None => Returns (JArray [])
  | Some savedNotes =>
      if String.eqb savedNotes EmptyString then Returns (JArray [])
      else match Json.parse savedNotes with
           | Some v => Returns v
           | None => Throws SyntaxError
           end
  end.

(** [const { data: notes = [] } = useQuery(...)]: the query keeps its
    previous [data] ([None] is [undefined]) when [queryFn] throws, and the
    destructuring default applies to [undefined] only. *)
Definition useQuery_data (previous : option JSON) (ls : Storage) : option JSON :=
  match queryFn ls with
  | Returns v => Some v
  | Throws _ => previous
  end.

Definition notes_binding (data : option JSON) : JSON :=
  default (JArray []) data.

(** The notes a reload finds in storage, read at the type [Note[]]. *)
Definition persisted (ls : Storage) : option (list Slot) :=
  match queryFn ls with
  | Returns v => decode_notes v
  | Throws _ => None
  end.

(** [invalidateQueries] followed by the refetch, for a component that holds
    [previous]: [None] when the parsed value is not of type [Note[]]. *)
Definition refetch (ls : Storage) (previous : list Slot) : option (list Slot) :=
  match queryFn ls with
  | Returns v => decode_notes v
  | Throws _ => Some previous
  end.

(** ** The repository mutations *)

(** The index at which [splice(start, ...)] works on an array of [len]
    entries: a negative [start] counts from the end, and the result is kept
    within [0..len]. *)
Definition actualStart (len start : Z) : Z :=
  if (start <? 0)%Z then Z.max (len + start) 0 else Z.min start len.

(** [Array.prototype.splice(start, deleteCount, ...items)] for integer
    arguments: the removed elements and the array afterwards. *)
Definition splice {A} (arr : list A) (start deleteCount : Z) (new_items : list A)
    : list A * list A :=
  let len := Z.of_nat (length arr) in
  let actualDeleteCount :=
    Z.min (Z.max deleteCount 0) (len - actualStart len start) in
  let k := Z.to_nat (actualStart len start) in
  let d := Z.to_nat actualDeleteCount in
  (take d (drop k arr), (take k arr ++ new_items ++ drop (k + d) arr)%list).

(** [position l i]: the entry of [l] that [l.splice(i, ...)] starts at. *)
Definition position {A} (l : list A) (i : Z) : nat :=
  Z.to_nat (actualStart (Z.of_nat (length l)) i).

(** [createNote.mutationFn]; [uuid] is the value of [uuidv4()], [now] and
    [now'] are the two readings of the clock, in the order they are taken
    ([new Date().toISOString()] for [createdAt], then again for
    [updatedAt]).  The result is the returned note and the storage. *)
Definition createNote (notes : list Note) (ls : Storage)
    (uuid now now' : string) (note : NoteFields) : Note * Storage :=
  let newNote :=
    {| id := uuid; createdAt := now; updatedAt := now';
       title := f_title note; content := f_content note;
       color := f_color note; tags := f_tags note; items := f_items note |} in
  let updatedNotes := (notes ++ [newNote])%list in
  (newNote, setItem "notes" (JSON_stringify (Obj <$> updatedNotes)) ls).

(** [updateNote.mutationFn]. *)
Definition updateNote (notes : list Note) (ls : Storage) (updatedNote : Note)
    : Note * Storage :=
  let updatedNotes :=
    (fun note => if String.eqb (id note) (id updatedNote) then updatedNote else note)
      <$> notes in
  (updatedNote, setItem "notes" (JSON_stringify (Obj <$> updatedNotes)) ls).

(** [deleteNote.mutationFn]. *)
Definition deleteNote (notes : list Note) (ls : Storage) (i : string)
    : string * Storage :=
  let updatedNotes := List.filter (fun note => negb (String.eqb (id note) i)) notes in
  (i, setItem "notes" (JSON_stringify (Obj <$> updatedNotes)) ls).

(** The array [moveNote.mutationFn] computes: [movedNote] is [undefined]
    when the first [splice] removed nothing. *)
Definition moved (notes : list Slot) (fromIndex toIndex : Z) : list Slot :=
  let updatedNotes := notes in
  let '(removed, updatedNotes) := splice updatedNotes fromIndex 1 [] in
  let movedNote := default Undefined (head removed) in
  let '(_, updatedNotes) := splice updatedNotes toIndex 0 [movedNote] in
  updatedNotes.

(** [moveNote.mutationFn]. *)
Definition moveNote (notes : list Slot) (ls : Storage) (fromIndex toIndex : Z)
    : list Slot * Storage :=
  let updatedNotes := moved notes fromIndex toIndex in
  (updatedNotes, setItem "notes" (JSON_stringify updatedNotes) ls).

(** [{ ...note, updatedAt: now }]. *)
Definition touch (note : Note) (now : string) : Note :=
  {| id := id note; title := title note; content := content note;
     createdAt := createdAt note; updatedAt := now;
     color := color note; tags := tags note; items := items note |}.

(** The card editor's debounced effect ([NoteCard]):
    [onUpdate({ ...debouncedNote, updatedAt: new Date().toISOString() })]
    when the card is the selected one and the edited note differs from the
    note shown; [None] when the effect does nothing. *)
Definition card_onUpdate (note : Note) (selected : option Note)
    (debouncedNote : Note) (now : string) : option Note :=
  match selected with
  | Some sel =>
      if String.eqb (id sel) (id note)
         && negb (String.eqb (print (encode_note debouncedNote))
                             (print (encode_note note)))
      then Some (touch debouncedNote now)
      else None
  | None => None
  end.

(** [onUpdate] as [LayoutGrid] wires it: the card's effect, then
    [updateNote.mutate]. *)
Definition card_update (notes : list Note) (ls : Storage) (note : Note)
    (selected : option Note) (debouncedNote : Note) (now : string)
    : option (Note * Storage) :=
  updateNote notes ls <$> card_onUpdate note selected debouncedNote now.

(** The fields the dialog holds once a title and a content were typed into
    the blank form. *)
Definition typed_fields (t c : string) : NoteFields :=
  {| f_title := t; f_content := c; f_color := COLORS_0;
     f_tags := []; f_items := Some [] |}.

(** ** The repository as a state machine *)

(** What the component holds ([cache], the data of the notes query) and
    what is stored. *)
Record State := mkState {
  cache : list Slot;
  localStorage : Storage
}.

Inductive Op :=
  | Create (uuid now now' : string) (note : NoteFields)
  | Update (updatedNote : Note)
  | Delete (i : string)
  | Reorder (fromIndex toIndex : Z).

(** One mutation with its [onSuccess]: create, update and delete invalidate
    the query (the component then holds what the refetch reads), move sets
    the query data to the array it computed.  The mutations are reachable
    from a rendered component only: rendering reads [note.tags] of every
    entry, so there is no step ([None]) from a cache that holds anything else
    than note objects. *)
Definition step (s : State) (op : Op) : option State :=
  notes ← as_notes (cache s);
  match op with
  | Create uuid now now' note =>
      let '(_, ls) := createNote notes (localStorage s) uuid now now' note in
      c ← refetch ls (cache s); Some (mkState c ls)
  | Update updatedNote =>
      let '(_, ls) := updateNote notes (localStorage s) updatedNote in
      c ← refetch ls (cache s); Some (mkState c ls)
  | Delete i =>
      let '(_, ls) := deleteNote notes (localStorage s) i in
      c ← refetch ls (cache s); Some (mkState c ls)
  | Reorder fromIndex toIndex =>
      let '(updatedNotes, ls) := moveNote (cache s) (localStorage s) fromIndex toIndex in
      Some (mkState updatedNotes ls)
  end.

(** The states after each operation of a sequence, while the component is
    rendered. *)
Fixpoint run (s : State) (ops : list Op) : list State :=
  match ops with
  | [] => []
  | op :: rest =>
      match step s op with
      | Some s' => s' :: run s' rest
      | None => []
      end
  end.

(** The stored collection is the one the component holds. *)
Definition in_sync (s : State) : Prop :=
  persisted (localStorage s) = Some (cache s).

(** The first [splice] of a move finds an entry to remove: the collection is
    not empty and [fromIndex] is below its length. *)
Definition removes_entry (s : State) (op : Op) : Prop :=
  match op with
  | Reorder fromIndex _ =>
      (0 < length (cache s))%nat ∧ (fromIndex < Z.of_nat (length (cache s)))%Z
  | _ => True
  end.

(** [removes_entry] for every operation of a sequence, at the state it is
    applied to. *)
Fixpoint all_remove (s : State) (ops : list Op) : Prop :=
  match ops with
  | [] => True
  | op :: rest =>
      removes_entry s op
      ∧ match step s op with
        | Some s' => all_remove s' rest
        | None => True
        end
  end.

(** ** Filtering *)

(** Text of ASCII characters only: every byte is below 128. *)
Fixpoint ascii_text (s : string) : bool :=
  match s with
  | EmptyString => true
  | String c s' => (nat_of_ascii c <? 128)%nat && ascii_text s'
  end.

(** The lower-case mapping of the Unicode case tables on the ASCII
    characters: the letters A to Z go to a to z, every other ASCII character
    stays. *)
Definition lower_char (c : ascii) : ascii :=
  let n := nat_of_ascii c in
  if (65 <=? n)%nat && (n <=? 90)%nat then ascii_of_nat (n + 32) else c.

Fixpoint lower_ascii (s : string) : string :=
  match s with
  | EmptyString => EmptyString
  | String c s' => String (lower_char c) (lower_ascii s')
  end.

(** What is known of [String.prototype.toLowerCase] without the case tables
    of the engine: on ASCII text it is [lower_ascii]. *)
Definition lowers_ascii (toLowerCase : string → string) : Prop :=
  ∀ s, ascii_text s = true → toLowerCase s = lower_ascii s.

(** The small letter of a Greek capital letter, Α to Ω (U+0391 to U+03A9, in
    UTF-8 the byte CE and a second byte [b] from 91 to A9): the letter 32
    code points further (U+03B1 to U+03BF are CE B1 to CE BF, U+03C0 to
    U+03C9 are CF 80 to CF 89); for Σ (U+03A3) in final position it is ς
    (U+03C2) and not σ (U+03C3). *)
Definition greek_small (b : nat) (final : bool) : string :=
  if (b =? 163)%nat && final
  then String (ascii_of_nat 207) (String (ascii_of_nat 130) EmptyString)
  else if (b <? 160)%nat
  then String (ascii_of_nat 206) (String (ascii_of_nat (b + 32)) EmptyString)
  else String (ascii_of_nat 207) (String (ascii_of_nat (b - 32)) EmptyString).

(** A word of Greek capital letters in lower case.  Σ is final
    (SpecialCasing.txt, condition Final_Sigma) when a cased letter comes
    before it and none after it: in such a word, when it is the last letter
    and not the [first]. *)
Fixpoint lower_greek_word (first : bool) (s : string) : string :=
  match s with
  | String _ (String c2 rest) =>
      greek_small (nat_of_ascii c2)
        (negb first && String.eqb rest EmptyString)
      +:+ lower_greek_word false rest
  | _ => s
  end.

(** [String.prototype.toLowerCase] where the examples need it: on ASCII text
    and on a word of Greek capital letters. *)
Definition toLowerCase_greek (s : string) : string :=
  if ascii_text s then lower_ascii s else lower_greek_word true s.

(** [s.startsWith(sub)]. *)
Fixpoint startsWith (s sub : string) {struct sub} : bool :=
  match sub with
  | EmptyString => true
  | String c sub' =>
      match s with
      | String d s' => Ascii.eqb c d && startsWith s' sub'
      | EmptyString => false
      end
  end.

(** [String.prototype.includes]. *)
Fixpoint includes (s sub : string) : bool :=
  startsWith s sub ||
  match s with
  | String _ s' => includes s' sub
  | EmptyString => false
  end.

(** [Array.prototype.includes] on an array of strings. *)
Definition array_includes (l : list string) (x : string) : bool :=
  existsb (String.eqb x) l.

Section Filtering.

(** [String.prototype.toLowerCase]. *)
Variable toLowerCase : string → string.

(** [filteredNotes]: the two [filter] passes over [notes]. *)
Definition filteredNotes (selectedColors selectedTags : list string)
    (searchQuery : string) (notes : list Note) : list Note :=
  List.filter
    (fun note =>
       if String.eqb searchQuery EmptyString then true
       else
         includes (toLowerCase (title note)) (toLowerCase searchQuery)
         || includes (toLowerCase (content note)) (toLowerCase searchQuery)
         || existsb (fun tag => includes (toLowerCase tag) (toLowerCase searchQuery))
              (tags note))
    (List.filter
       (fun note =>
          if (length selectedColors =? 0)%nat && (length selectedTags =? 0)%nat
          then true
          else
            let colorMatch :=
              (length selectedColors =? 0)%nat
              || array_includes selectedColors (color note) in
            let tagMatch :=
              (length selectedTags =? 0)%nat
              || existsb (fun tag => array_includes (tags note) tag) selectedTags in
            colorMatch && tagMatch)
       notes).

End Filtering.

(** *** The filter as the specification words it *)

(** Two characters are the same up to case: they are equal, or one is a
    capital letter A to Z and the other the small letter of the same rank. *)
Definition same_letter (a b : ascii) : bool :=
  let m := nat_of_ascii a in
  let n := nat_of_ascii b in
  (m =? n)%nat
  || ((65 <=? m)%nat && (m <=? 90)%nat && (n =? m + 32)%nat)
  || ((65 <=? n)%nat && (n <=? 90)%nat && (m =? n + 32)%nat).

(** Two texts are the same up to case, character by character. *)
Fixpoint ci_equal (a b : string) : bool :=
  match a, b with
  | EmptyString, EmptyString => true
  | String x a', String y b' => same_letter x y && ci_equal a' b'
  | _, _ => false
  end.

(** [q] is a case-insensitive substring of [s]: [s] has a part that is [q]
    up to case. *)
Definition ci_substring (q s : string) : Prop :=
  ∃ pre mid post, s = pre +:+ mid +:+ post ∧ ci_equal q mid = true.

(** A note whose title, content and tags are ASCII text. *)
Definition ascii_note (n : Note) : Prop :=
  ascii_text (title n) = true ∧ ascii_text (content n) = true
  ∧ Forall (fun tag => ascii_text tag = true) (tags n).

(** A note matches the active filter. *)
Definition matches (selectedColors selectedTags : list string)
    (searchQuery : string) (n : Note) : Prop :=
  (selectedColors = [] ∨ color n ∈ selectedColors)
  ∧ (selectedTags = [] ∨ ∃ t, t ∈ tags n ∧ t ∈ selectedTags)
  ∧ (searchQuery = EmptyString
     ∨ ci_substring searchQuery (title n)
     ∨ ci_substring searchQuery (content n)
     ∨ ∃ t, t ∈ tags n ∧ ci_substring searchQuery t).

(** [q] in lower case is a substring of [s] in lower case. *)
Definition lowered_substring (toLowerCase : string → string) (q s : string) : Prop :=
  ∃ pre post, toLowerCase s = pre +:+ toLowerCase q +:+ post.

(** A note matches the active filter, the search read through
    [toLowerCase]. *)
Definition matches_lowered (toLowerCase : string → string)
    (selectedColors selectedTags : list string) (searchQuery : string) (n : Note)
    : Prop :=
  (selectedColors = [] ∨ color n ∈ selectedColors)
  ∧ (selectedTags = [] ∨ ∃ t, t ∈ tags n ∧ t ∈ selectedTags)
  ∧ (searchQuery = EmptyString
     ∨ lowered_substring toLowerCase searchQuery (title n)
     ∨ lowered_substring toLowerCase searchQuery (content n)
     ∨ ∃ t, t ∈ tags n ∧ lowered_substring toLowerCase searchQuery t).

(** ** The creation dialog and its draft *)

(** What [String.prototype.trim] removes: the white space and the line
    terminators of ECMAScript, that is U+0009 to U+000D, U+0020, U+00A0,
    U+1680, U+2000 to U+200A, U+2028, U+2029, U+202F, U+205F, U+3000 and
    U+FEFF.  In UTF-8 they are one byte ([is_space]), the two bytes C2 A0
    ([is_space2]) or three bytes ([is_space3]). *)
Definition is_space (c : ascii) : bool :=
  let n := nat_of_ascii c in
  ((9 <=? n)%nat && (n <=? 13)%nat) || (n =? 32)%nat.

Definition is_space2 (c1 c2 : ascii) : bool :=
  (nat_of_ascii c1 =? 194)%nat && (nat_of_ascii c2 =? 160)%nat.

Definition is_space3 (c1 c2 c3 : ascii) : bool :=
  let a := nat_of_ascii c1 in
  let b := nat_of_ascii c2 in
  let c := nat_of_ascii c3 in
  ((a =? 225)%nat && (b =? 154)%nat && (c =? 128)%nat)
  || ((a =? 226)%nat && (b =? 128)%nat
      && (((128 <=? c)%nat && (c <=? 138)%nat)
          || (c =? 168)%nat || (c =? 169)%nat || (c =? 175)%nat))
  || ((a =? 226)%nat && (b =? 129)%nat && (c =? 159)%nat)
  || ((a =? 227)%nat && (b =? 128)%nat && (c =? 128)%nat)
  || ((a =? 239)%nat && (b =? 187)%nat && (c =? 191)%nat).

(** The bytes that are left when the white-space characters are taken off
    the front; [sp2] and [sp3] recognise the characters of two and of three
    bytes. *)
Fixpoint strip (sp2 : ascii → ascii → bool) (sp3 : ascii → ascii → ascii → bool)
    (s : list ascii) : list ascii :=
  match s with
  | c1 :: s1 =>
      if is_space c1 then strip sp2 sp3 s1
      else
        match s1 with
        | c2 :: s2 =>
            if sp2 c1 c2 then strip sp2 sp3 s2
            else
              match s2 with
              | c3 :: s3 => if sp3 c1 c2 c3 then strip sp2 sp3 s3 else s
              | [] => s
              end
        | [] => s
        end
  | [] => s
  end.

Definition trimStart (s : string) : string :=
  string_of_list_ascii (strip is_space2 is_space3 (list_ascii_of_string s)).

(** From the end, the bytes of a character are met last byte first. *)
Definition trimEnd (s : string) : string :=
  string_of_list_ascii
    (rev (strip (fun c2 c1 => is_space2 c1 c2) (fun c3 c2 c1 => is_space3 c1 c2 c3)
            (rev (list_ascii_of_string s)))).

Definition trim (s : string) : string := trimEnd (trimStart s).

(** The bytes [s] start with a white-space character. *)
Definition lead (sp2 : ascii → ascii → bool) (sp3 : ascii → ascii → ascii → bool)
    (s : list ascii) : bool :=
  match s with
  | c1 :: s1 =>
      is_space c1
      || match s1 with
         | c2 :: s2 =>
             sp2 c1 c2
             || match s2 with
                | c3 :: _ => sp3 c1 c2 c3
                | [] => false
                end
         | [] => false
         end
  | [] => false
  end.

(** Truthiness of a string: the empty string is falsy. *)
Definition truthy (s : string) : bool := negb (String.eqb s EmptyString).

(** Truthiness of [draftId : string | null]. *)
Definition truthy_id (d : option string) : bool :=
  match d with
  | Some s => truthy s
  | None => false
  end.

(** The value the dialog's form is reset to. *)
Definition blank_fields : NoteFields :=
  {| f_title := EmptyString; f_content := EmptyString; f_color := COLORS_0;
     f_tags := []; f_items := Some [] |}.

(** [{ ...note, ...newNote, updatedAt: now }]. *)
Definition overwrite (note : Note) (newNote : NoteFields) (now : string) : Note :=
  {| id := id note; createdAt := createdAt note; updatedAt := now;
     title := f_title newNote; content := f_content newNote;
     color := f_color newNote; tags := f_tags newNote; items := f_items newNote |}.

(** [notes.map((note) => note.id === draftId
      ? { ...note, ...newNote, updatedAt: new Date().toISOString() } : note)]:
    the clock is read once for every note of that id; [now k] is the reading
    number [k] and [k] readings were taken before. *)
Fixpoint map_draft (draftId : option string) (newNote : NoteFields)
    (now : nat → string) (k : nat) (notes : list Note) : list Note :=
  match notes with
  | [] => []
  | note :: rest =>
      if bool_decide (Some (id note) = draftId)
      then overwrite note newNote (now k) :: map_draft draftId newNote now (S k) rest
      else note :: map_draft draftId newNote now k rest
  end.

(** A note whose title is not blank. *)
Definition titled (n : Note) : Prop := trim (title n) ≠ EmptyString.

Module Dialog.

(** The state of [Notebook] the draft logic reads and writes; [notes] is the
    array the current render holds. *)
Record Notebook := mkNotebook {
  isModalOpen : bool;
  newNote : NoteFields;
  draftId : option string;
  notes : list Note;
  storage : Storage
}.

(** The effect [Reset form when modal is closed]; [r] is the render the
    effect closes over, [a] the state it writes to. *)
Definition reset_effect (r a : Notebook) : Notebook :=
  if negb (isModalOpen r)
  then mkNotebook (isModalOpen a) blank_fields (draftId a) (notes a) (storage a)
  else a.

(** The effect [On open, create or update draft]; [uuid] is the value of
    [uuidv4()] and [now 0], [now 1], ... are the readings of the clock in the
    order they are taken. *)
Definition draft_effect (uuid : string) (now : nat → string) (r a : Notebook)
    : Notebook :=
  if isModalOpen r && truthy (trim (f_title (newNote r))) then
    if negb (truthy_id (draftId r)) then
      let newDraft :=
        {| id := uuid; createdAt := now 0%nat; updatedAt := now 1%nat;
           title := f_title (newNote r); content := f_content (newNote r);
           color := f_color (newNote r); tags := f_tags (newNote r);
           items := f_items (newNote r) |} in
      let updatedNotes := (notes r ++ [newDraft])%list in
      mkNotebook (isModalOpen a) (newNote a) (Some uuid) (notes a)
        (setItem "notes" (JSON_stringify (Obj <$> updatedNotes)) (storage a))
    else
      let updatedNotes := map_draft (draftId r) (newNote r) now 0 (notes r) in
      mkNotebook (isModalOpen a) (newNote a) (draftId a) (notes a)
        (setItem "notes" (JSON_stringify (Obj <$> updatedNotes)) (storage a))
  else a.

(** The effect [On close, remove draft if not saved]. *)
Definition close_effect (r a : Notebook) : Notebook :=
  if negb (isModalOpen r) && truthy_id (draftId r) then
    let updatedNotes :=
      List.filter (fun note => negb (bool_decide (Some (id note) = draftId r)))
        (notes r) in
    mkNotebook (isModalOpen a) (newNote a) None (notes a)
      (setItem "notes" (JSON_stringify (Obj <$> updatedNotes)) (storage a))
  else a.

(** The effects that run after a render in which [isModalOpen] changed, in
    the order they are declared. *)
Definition toggled (uuid : string) (now : nat → string) (r : Notebook) : Notebook :=
  close_effect r (draft_effect uuid now r (reset_effect r r)).

(** [handleSave]: the state it sets and the storage it writes, before the
    next render. *)
Definition handleSave (uuid : string) (now : nat → string) (s : Notebook)
    : Notebook :=
  if truthy (trim (f_title (newNote s))) then
    if truthy_id (draftId s) then
      let updatedNotes := map_draft (draftId s) (newNote s) now 0 (notes s) in
      mkNotebook false (newNote s) None (notes s)
        (setItem "notes" (JSON_stringify (Obj <$> updatedNotes)) (storage s))
    else
      let '(_, ls) :=
        createNote (notes s) (storage s) uuid (now 0%nat) (now 1%nat) (newNote s) in
      mkNotebook false blank_fields (draftId s) (notes s) ls
  else mkNotebook false (newNote s) (draftId s) (notes s) (storage s).

Inductive Event :=
  | SetOpen (open : bool)
  | Edit (fields : NoteFields)
  | Debounced
  | Save
  | Refetched.

(** One event of the dialog; [uuid] and [now] are what [uuidv4()] and the
    clock give during the event.  Setting [isModalOpen] to the value it has
    renders nothing; a refetch that finds a value that is not of type
    [Note[]] is outside the model, and the render keeps its notes. *)
Definition handle (uuid : string) (now : nat → string) (e : Event) (s : Notebook)
    : Notebook :=
  match e with
  | SetOpen open =>
      if bool_decide (open = isModalOpen s) then s
      else toggled uuid now
             (mkNotebook open (newNote s) (draftId s) (notes s) (storage s))
  | Edit fields =>
      mkNotebook (isModalOpen s) fields (draftId s) (notes s) (storage s)
  | Debounced => draft_effect uuid now s s
  | Save =>
      let s' := handleSave uuid now s in
      if bool_decide (isModalOpen s' = isModalOpen s) then s'
      else toggled uuid now s'
  | Refetched =>
      match refetch (storage s) (Obj <$> notes s) ≫= as_notes with
      | Some l => mkNotebook (isModalOpen s) (newNote s) (draftId s) l (storage s)
      | None => s
      end
  end.

Definition session (uuid : string) (now : nat → string) (es : list Event)
    (s : Notebook) : Notebook :=
  foldl (fun s e => handle uuid now e s) s es.

(** The events that do not open or close the dialog. *)
Definition quiet (e : Event) : bool :=
  match e with
  | Edit _ | Debounced | Refetched => true
  | SetOpen _ | Save => false
  end.

(** Every note the render holds and every stored note has a title. *)
Definition all_titled (s : Notebook) : Prop :=
  Forall titled (notes s)
  ∧ ∃ l : list Note, persisted (storage s) = Some (Obj <$> l) ∧ Forall titled l.

End Dialog.

(** ** The rest of the component: tags, filter toggles, checklist, grid *)

(** [Array.prototype.sort] without a comparator orders strings by their
    UTF-16 code units.  On the UTF-8 bytes this is the order of the bytes,
    except that a character of four bytes (lead byte F0 to F4: a surrogate
    pair, D800 to DFFF, in UTF-16) comes before the characters U+E000 to
    U+FFFF (lead byte EE or EF).  [utf16_rank] moves the lead bytes
    accordingly and leaves every other byte where it is. *)
Definition utf16_rank (c : ascii) : ascii :=
  let n := nat_of_ascii c in
  if (240 <=? n)%nat && (n <=? 244)%nat then ascii_of_nat (n - 2)
  else if (238 <=? n)%nat && (n <=? 239)%nat then ascii_of_nat (n + 5)
  else c.

Fixpoint sort_key (s : string) : string :=
  match s with
  | EmptyString => EmptyString
  | String c s' => String (utf16_rank c) (sort_key s')
  end.

Definition str_le (a b : string) : Prop := String.leb (sort_key a) (sort_key b) = true.

#[global] Instance str_le_dec : RelDecision str_le.
Proof. intros a b. unfold str_le. apply _. Defined.

(** [Array.from(new Set(xs))]: the values in the order they were first
    added. *)
Definition new_Set (xs : list string) : list string :=
  foldl (fun set x => if array_includes set x then set else (set ++ [x])%list) [] xs.

(** [allTags]:
    [Array.from(new Set(notes.flatMap((note) => note.tags))).sort()]. *)
Definition allTags (notes : list Note) : list string :=
  merge_sort str_le (new_Set (List.flat_map tags notes)).

(** The updater of [handleColorToggle] and of [handleTagToggle]:
    [prev.includes(x) ? prev.filter((c) => c !== x) : [...prev, x]]. *)
Definition toggle (x : string) (prev : list string) : list string :=
  if array_includes prev x
  then List.filter (fun c => negb (String.eqb c x)) prev
  else (prev ++ [x])%list.

(** The filter criteria [Notebook] holds. *)
Record Criteria := mkCriteria {
  selectedColors : list string;
  selectedTags : list string;
  searchQuery : string
}.

Definition handleColorToggle (color : string) (c : Criteria) : Criteria :=
  mkCriteria (toggle color (selectedColors c)) (selectedTags c) (searchQuery c).

Definition handleTagToggle (tag : string) (c : Criteria) : Criteria :=
  mkCriteria (selectedColors c) (toggle tag (selectedTags c)) (searchQuery c).

Definition handleClearFilters (c : Criteria) : Criteria :=
  mkCriteria [] [] (searchQuery c).

(** The notes the grid shows for the criteria. *)
Definition shown (toLowerCase : string → string) (c : Criteria) (notes : list Note)
    : list Note :=
  filteredNotes toLowerCase (selectedColors c) (selectedTags c) (searchQuery c) notes.

(** [handleAddTag], on the tags of the note being edited and the text of the
    tag input: the tags and the input afterwards. *)
Definition handleAddTag (newTag : string) (tgs : list string) : list string * string :=
  if truthy (trim newTag) && negb (array_includes tgs (trim newTag))
  then ((tgs ++ [trim newTag])%list, EmptyString)
  else (tgs, newTag).

(** [handleRemoveTag]. *)
Definition handleRemoveTag (tagToRemove : string) (tgs : list string) : list string :=
  List.filter (fun tag => negb (String.eqb tag tagToRemove)) tgs.

(** [handleAddItem]; [uuid] is the value of [crypto.randomUUID()].  The
    checklist and the text of the item input afterwards. *)
Definition handleAddItem (uuid newItem : string) (its : option (list ChecklistItem))
    : option (list ChecklistItem) * string :=
  if truthy (trim newItem)
  then (Some (default [] its ++ [mkItem uuid (trim newItem) false])%list, EmptyString)
  else (its, newItem).

(** [handleRemoveItem]: [items?.filter((item) => item.id !== itemId)]. *)
Definition handleRemoveItem (itemId : string) (its : option (list ChecklistItem))
    : option (list ChecklistItem) :=
  List.filter (fun item => negb (String.eqb (item_id item) itemId)) <$> its.

(** [handleToggleItem]:
    [items?.map((item) => item.id === itemId ? { ...item, checked: !item.checked } : item)]. *)
Definition handleToggleItem (itemId : string) (its : option (list ChecklistItem))
    : option (list ChecklistItem) :=
  (fun l : list ChecklistItem =>
     (fun item =>
        if String.eqb (item_id item) itemId
        then mkItem (item_id item) (item_text item) (negb (item_checked item))
        else item) <$> l) <$> its.

(** The [onChange] of a checklist item's text input:
    [items?.map((i) => i.id === item.id ? { ...i, text: value } : i)]. *)
Definition handleItemText (itemId value : string) (its : option (list ChecklistItem))
    : option (list ChecklistItem) :=
  (fun l : list ChecklistItem =>
     (fun i =>
        if String.eqb (item_id i) itemId
        then mkItem (item_id i) value (item_checked i)
        else i) <$> l) <$> its.

(** The [hover] handler of a card's drop target: [item] is the drag item's
    index, [index] the index of the card hovered.  The call of [onMove], if
    any, and the drag item's index afterwards. *)
Definition hover (item index : nat) : option (Z * Z) * nat :=
  if bool_decide (item ≠ index)
  then (Some (Z.of_nat item, Z.of_nat index), index)
  else (None, item).

(** A drag over the cards of indices [hovered], one after the other:
    [onMove] is [moveNote.mutate], and each mutation is rendered before the
    next card is hovered. *)
Fixpoint drag (s : State) (item : nat) (hovered : list nat) : option (State * nat) :=
  match hovered with
  | [] => Some (s, item)
  | index :: rest =>
      match hover item index with
      | (Some (fromIndex, toIndex), item') =>
          s' ← step s (Reorder fromIndex toIndex); drag s' item' rest
      | (None, item') => drag s item' rest
      end
  end.

(** The note [createNote] and the draft effect build: [now] and [now'] are
    the two readings of the clock. *)
Definition draft_of (uuid now now' : string) (fields : NoteFields) : Note :=
  {| id := uuid; createdAt := now; updatedAt := now';
     title := f_title fields; content := f_content fields;
     color := f_color fields; tags := f_tags fields; items := f_items fields |}.

(** The first effect of [NoteCard], run when the [note] prop changes: when
    [note] and [prevNoteRef.current] are written differently by
    [JSON.stringify], the edited note and the ref both become [note].  The
    result is the pair ([editedNote], [prevNoteRef.current]). *)
Definition card_sync (note prevNote editedNote : Note) : Note * Note :=
  if negb (String.eqb (print (encode_note note)) (print (encode_note prevNote)))
  then (note, note)
  else (editedNote, prevNote).

(** * Properties *)

(** ** JSON text: what [print] writes, [parse] reads back *)

Module JsonFacts.
Import Json.

Lemma print_array vs : print (JArray vs) = "[" +:+ print_elems vs.
Proof. reflexivity. Qed.
Lemma print_object kvs : print (JObject kvs) = "{" +:+ print_members kvs.
Proof. reflexivity. Qed.
Lemma print_elems_cons x y ys : print_elems (x :: y :: ys) = print x +:+ "," +:+ print_elems (y :: ys).
Proof. reflexivity. Qed.
Lemma print_members_cons k x y ys : print_members ((k,x) :: y :: ys) = quote k +:+ ":" +:+ print x +:+ "," +:+ print_members (y :: ys).
Proof. reflexivity. Qed.

Lemma sapp_assoc (a b c : string) : (a +:+ b) +:+ c = a +:+ (b +:+ c).
Proof. induction a as [|x a IH]; [reflexivity|]. change ((String x a +:+ b) +:+ c) with (String x ((a +:+ b) +:+ c)). rewrite IH. reflexivity. Qed.
Lemma sapp_cons x (a b : string) : String x a +:+ b = String x (a +:+ b).
Proof. reflexivity. Qed.

Lemma parse_escape c t :
  parse_chars (escape_char c +:+ t) =
  match parse_chars t with Some (body, tl) => Some (String c body, tl) | None => None end.
Proof. destruct c as [[|] [|] [|] [|] [|] [|] [|] [|]]; reflexivity. Qed.

Lemma parse_chars_quote s rest :
  parse_chars (quote_body s +:+ String dquote rest) = Some (s, rest).
Proof.
  induction s as [|c s IH]; [reflexivity|].
  change (quote_body (String c s)) with (escape_char c +:+ quote_body s).
  rewrite sapp_assoc, parse_escape, IH. reflexivity.
Qed.

Lemma parse_value_string f X :
  parse_value (S f) (String dquote X) = (fun '(str, tl) => (JString str, tl)) <$> parse_chars X.
Proof. reflexivity. Qed.
Lemma parse_value_array f X :
  parse_value (S f) (String "["%char X) =
  match starts_with "]" (skip_ws X) with
  | Some tl => Some (JArray [], tl)
  | None => (fun '(vs, tl) => (JArray vs, tl)) <$> parse_elements f X
  end.
Proof. reflexivity. Qed.
Lemma parse_value_object f X :
  parse_value (S f) (String "{"%char X) =
  match starts_with "}" (skip_ws X) with
  | Some tl => Some (JObject [], tl)
  | None => (fun '(kvs, tl) => (JObject kvs, tl)) <$> parse_members f X
  end.
Proof. reflexivity. Qed.
Lemma parse_elements_S f s :
  parse_elements (S f) s =
  match parse_value f s with
  | None => None
  | Some (v, tl) =>
      match starts_with "," (skip_ws tl) with
      | Some tl' => (fun '(vs, tl'') => (v :: vs, tl'')) <$> parse_elements f tl'
      | None => match starts_with "]" (skip_ws tl) with
                | Some tl' => Some ([v], tl')
                | None => None
                end
      end
  end.
Proof. reflexivity. Qed.
Lemma parse_members_S f s :
  parse_members (S f) s =
  match starts_with dquote (skip_ws s) with
  | None => None
  | Some rest =>
      match parse_chars rest with
      | None => None
      | Some (k, tl) =>
          match starts_with ":" (skip_ws tl) with
          | None => None
          | Some tl0 =>
              match parse_value f tl0 with
              | None => None
              | Some (v, tl1) =>
                  match starts_with "," (skip_ws tl1) with
                  | Some tl' =>
                      (fun '(kvs, tl'') => ((k, v) :: kvs, tl'')) <$> parse_members f tl'
                  | None =>
                      match starts_with "}" (skip_ws tl1) with
                      | Some tl' => Some ([(k, v)], tl')
                      | None => None
                      end
                  end
              end
          end
      end
  end.
Proof. reflexivity. Qed.

Lemma quote_app k Y : quote k +:+ Y = String dquote (quote_body k +:+ String dquote Y).
Proof. unfold quote. rewrite sapp_cons, sapp_assoc. reflexivity. Qed.

Lemma print_start v rest :
  plain v = true →
  skip_ws (print v +:+ rest) = print v +:+ rest ∧
  starts_with "]" (print v +:+ rest) = None.
Proof. destruct v as [| [|] | | | |]; intros H; try discriminate H; split; reflexivity. Qed.

Lemma parse_print_fuel fuel :
  (∀ v rest, plain v = true → (size v ≤ fuel)%nat →
     parse_value fuel (print v +:+ rest) = Some (v, rest)) ∧
  (∀ v vs rest, forallb plain (v :: vs) = true → (size_elems (v :: vs) ≤ fuel)%nat →
     parse_elements fuel (print_elems (v :: vs) +:+ rest) = Some (v :: vs, rest)) ∧
  (∀ k v kvs rest, forallb (fun kv => plain kv.2) ((k, v) :: kvs) = true →
     (size_members ((k, v) :: kvs) ≤ fuel)%nat →
     parse_members fuel (print_members ((k, v) :: kvs) +:+ rest)
       = Some ((k, v) :: kvs, rest)).
Proof.
  induction fuel as [|f (IHv & IHe & IHm)].
  { split; [|split].
    - intros v rest _ H. destruct v; simpl in H; lia.
    - intros v vs rest _ H. unfold size_elems in H. simpl in H. lia.
    - intros k v kvs rest _ H. unfold size_members in H. simpl in H. lia. }
  split; [|split].
  - intros v rest Hp Hs. destruct v as [| [|] | lit | s | vs | kvs];
      try reflexivity; try discriminate Hp.
    + change (print (JString s) +:+ rest)
        with (String dquote ((quote_body s +:+ String dquote EmptyString) +:+ rest)).
      rewrite parse_value_string, sapp_assoc.
      change (String dquote EmptyString +:+ rest) with (String dquote rest).
      rewrite parse_chars_quote. reflexivity.
    + destruct vs as [|x xs]; [reflexivity|].
      change (print (JArray (x :: xs)) +:+ rest)
        with (String "["%char (print_elems (x :: xs) +:+ rest)).
      rewrite parse_value_array.
      simpl in Hp. apply andb_prop in Hp as Hp'. destruct Hp' as [Hx Hxs].
      assert (Hhd : starts_with "]" (skip_ws (print_elems (x :: xs) +:+ rest)) = None).
      { destruct xs as [|y ys].
        - change (print_elems [x] +:+ rest) with ((print x +:+ "]") +:+ rest).
          rewrite sapp_assoc.
          destruct (print_start x ("]" +:+ rest) Hx) as [-> ->]. reflexivity.
        - rewrite print_elems_cons, sapp_assoc.
          destruct (print_start x (("," +:+ print_elems (y :: ys)) +:+ rest) Hx) as [-> ->].
          reflexivity. }
      rewrite Hhd, IHe; [reflexivity|exact Hp|].
      simpl in Hs. unfold size_elems. simpl. lia.
    + destruct kvs as [|[k x] xs]; [reflexivity|].
      change (print (JObject ((k, x) :: xs)) +:+ rest)
        with (String "{"%char (print_members ((k, x) :: xs) +:+ rest)).
      rewrite parse_value_object.
      assert (Hhd : starts_with "}" (skip_ws (print_members ((k, x) :: xs) +:+ rest)) = None).
      { destruct xs; reflexivity. }
      rewrite Hhd, IHm; [reflexivity|exact Hp|].
      simpl in Hs. unfold size_members. simpl. lia.
  - intros v vs rest Hp Hs. rewrite parse_elements_S.
    simpl in Hp. apply andb_prop in Hp as [Hv Hvs].
    unfold size_elems in Hs. simpl in Hs.
    destruct vs as [|y ys].
    + change (print_elems [v] +:+ rest) with ((print v +:+ "]") +:+ rest).
      rewrite sapp_assoc, IHv; [reflexivity|exact Hv|lia].
    + rewrite print_elems_cons, !sapp_assoc, IHv; [|exact Hv|lia].
      change (starts_with "," (skip_ws ("," +:+ print_elems (y :: ys) +:+ rest)))
        with (Some (print_elems (y :: ys) +:+ rest)).
      cbv iota beta. rewrite IHe; [reflexivity|exact Hvs|].
      unfold size_elems. simpl in *. lia.
  - intros k v kvs rest Hp Hs. rewrite parse_members_S.
    simpl in Hp. apply andb_prop in Hp as [Hv Hvs].
    unfold size_members in Hs. simpl in Hs.
    destruct kvs as [|[k' y] ys].
    + change (print_members [(k, v)]) with (quote k +:+ ":" +:+ print v +:+ "}").
      rewrite !sapp_assoc, quote_app.
      change (starts_with dquote (skip_ws (String dquote ?X))) with (Some X).
      cbv iota beta. rewrite parse_chars_quote.
      change (starts_with ":" (skip_ws (":" +:+ ?X))) with (Some X).
      cbv iota beta. rewrite IHv; [reflexivity|exact Hv|lia].
    + rewrite print_members_cons, !sapp_assoc, quote_app.
      change (starts_with dquote (skip_ws (String dquote ?X))) with (Some X).
      cbv iota beta. rewrite parse_chars_quote.
      change (starts_with ":" (skip_ws (":" +:+ ?X))) with (Some X).
      cbv iota beta. rewrite IHv; [|exact Hv|lia].
      change (starts_with "," (skip_ws ("," +:+ ?X))) with (Some X).
      cbv iota beta. rewrite IHm; [reflexivity|exact Hvs|].
      unfold size_members. simpl in *. lia.
Qed.



Lemma slength_app (a b : string) : String.length (a +:+ b) = (String.length a + String.length b)%nat.
Proof. induction a as [|x a IH]; [reflexivity|]. rewrite sapp_cons. simpl. rewrite IH. reflexivity. Qed.

Lemma size_elems_le vs :
  Forall (fun v => plain v = true → (size v ≤ String.length (print v))%nat) vs →
  forallb plain vs = true →
  (size_elems vs ≤ String.length (print_elems vs))%nat.
Proof.
  induction 1 as [|x xs Hx _ IH]; intros Hp; [cbn; lia|].
  cbn [forallb] in Hp. apply andb_prop in Hp as [Hpx Hpxs].
  specialize (IH Hpxs). specialize (Hx Hpx).
  unfold size_elems, list_sum in *. cbn [map fold_right] in *.
  destruct xs as [|y ys].
  - change (print_elems [x]) with (print x +:+ "]").
    rewrite slength_app. cbn in *. lia.
  - rewrite print_elems_cons, !slength_app.
    change (String.length ",") with 1%nat. lia.
Qed.

Lemma size_members_le kvs :
  Forall (fun kv => plain kv.2 = true → (size kv.2 ≤ String.length (print kv.2))%nat) kvs →
  forallb (fun kv => plain kv.2) kvs = true →
  (size_members kvs ≤ String.length (print_members kvs))%nat.
Proof.
  induction 1 as [|[k x] xs Hx _ IH]; intros Hp; [cbn; lia|].
  cbn [forallb] in Hp. apply andb_prop in Hp as [Hpx Hpxs].
  specialize (IH Hpxs). specialize (Hx Hpx).
  unfold size_members, list_sum in *. cbn [map fold_right snd] in *.
  destruct xs as [|y ys].
  - change (print_members [(k, x)]) with (quote k +:+ ":" +:+ print x +:+ "}").
    rewrite !slength_app. cbn in *. lia.
  - rewrite print_members_cons, !slength_app.
    change (String.length ",") with 1%nat. lia.
Qed.

Lemma size_le_length v : plain v = true → (size v ≤ String.length (print v))%nat.
Proof.
  induction v as [| b | lit | s | vs IH | kvs IH] using JSON_nested_ind; intros Hp.
  - cbn. lia.
  - destruct b; cbn; lia.
  - discriminate.
  - cbn [size print]. unfold quote. cbn [String.length]. lia.
  - rewrite print_array, sapp_cons. cbn [String.length].
    change (size (JArray vs)) with (S (size_elems vs)).
    apply le_n_S. change ("" +:+ print_elems vs) with (print_elems vs).
    apply size_elems_le; assumption.
  - rewrite print_object, sapp_cons. cbn [String.length].
    change (size (JObject kvs)) with (S (size_members kvs)).
    apply le_n_S. change ("" +:+ print_members kvs) with (print_members kvs).
    apply size_members_le; assumption.
Qed.

Lemma sapp_nil_r (a : string) : a +:+ EmptyString = a.
Proof. induction a as [|x a IH]; [reflexivity|]. rewrite sapp_cons, IH. reflexivity. Qed.

Lemma parse_print v : plain v = true → parse (print v) = Some v.
Proof.
  intros Hp. unfold parse.
  pose proof (proj1 (parse_print_fuel (String.length (print v))) v EmptyString Hp
                (size_le_length v Hp)) as H.
  rewrite sapp_nil_r in H. rewrite H. reflexivity.
Qed.

End JsonFacts.

Import JsonFacts.

(** ** Notes written and read back *)

Lemma mapM_as_string (l : list string) : mapM as_string (JString <$> l) = Some l.
Proof. apply mapM_fmap_Some. reflexivity. Qed.

Lemma decode_encode_item i : decode_item (encode_item i) = Some i.
Proof. destruct i. reflexivity. Qed.

Lemma mapM_decode_item (l : list ChecklistItem) :
  mapM decode_item (encode_item <$> l) = Some l.
Proof. apply mapM_fmap_Some, decode_encode_item. Qed.

Lemma decode_encode_note n : decode_note (encode_note n) = Some n.
Proof.
  destruct n as [i t c ca ua col tgs [its|]]; cbn;
    rewrite mapM_as_string; cbn; [rewrite mapM_decode_item|]; reflexivity.
Qed.

Lemma decode_encode_slot s : decode_slot (encode_slot s) = Some (stored_as s).
Proof.
  destruct s as [| |n]; [reflexivity..|].
  transitivity (Obj <$> decode_note (encode_note n)); [reflexivity|].
  rewrite decode_encode_note. reflexivity.
Qed.

Lemma decode_encode_notes (l : list Slot) :
  decode_notes (JArray (encode_slot <$> l)) = Some (stored_as <$> l).
Proof.
  unfold decode_notes. apply mapM_Some_2.
  induction l as [|x l IH]; constructor; [apply decode_encode_slot|exact IH].
Qed.

Lemma forallb_fmap_true {A B} (f : A → B) (p : B → bool) (l : list A) :
  (∀ x, p (f x) = true) → forallb p (f <$> l) = true.
Proof. intros H. induction l as [|x l IH]; cbn; [reflexivity|]. rewrite H. exact IH. Qed.

Lemma plain_encode_note n : plain (encode_note n) = true.
Proof.
  destruct n as [i t c ca ua col tgs [its|]]; cbn;
    rewrite forallb_fmap_true by reflexivity; cbn; [|reflexivity].
  rewrite forallb_fmap_true; [reflexivity|]. intros []. reflexivity.
Qed.

Lemma plain_encode_notes (l : list Slot) : plain (JArray (encode_slot <$> l)) = true.
Proof.
  cbn. apply forallb_fmap_true. intros [| |n]; [reflexivity..|apply plain_encode_note].
Qed.

Lemma parse_stringify (l : list Slot) :
  Json.parse (JSON_stringify l) = Some (JArray (encode_slot <$> l)).
Proof. apply JsonFacts.parse_print, plain_encode_notes. Qed.

Lemma stringify_truthy (l : list Slot) : String.eqb (JSON_stringify l) EmptyString = false.
Proof. reflexivity. Qed.

Lemma queryFn_setItem (l : list Slot) ls :
  queryFn (setItem "notes" (JSON_stringify l) ls) = Returns (JArray (encode_slot <$> l)).
Proof.
  unfold queryFn, getItem, setItem. rewrite lookup_insert_eq.
  rewrite stringify_truthy, parse_stringify. reflexivity.
Qed.

Lemma persisted_setItem (l : list Slot) ls :
  persisted (setItem "notes" (JSON_stringify l) ls) = Some (stored_as <$> l).
Proof. unfold persisted. rewrite queryFn_setItem. apply decode_encode_notes. Qed.

Lemma refetch_setItem (l previous : list Slot) ls :
  refetch (setItem "notes" (JSON_stringify l) ls) previous = Some (stored_as <$> l).
Proof. unfold refetch. rewrite queryFn_setItem. apply decode_encode_notes. Qed.

Lemma stored_as_Obj (l : list Note) : stored_as <$> (Obj <$> l) = Obj <$> l.
Proof. rewrite <- list_fmap_compose. reflexivity. Qed.

Lemma as_notes_Obj (l : list Note) : as_notes (Obj <$> l) = Some l.
Proof. apply mapM_fmap_Some. reflexivity. Qed.

Lemma as_notes_Some (c : list Slot) (l : list Note) : as_notes c = Some l → c = Obj <$> l.
Proof.
  unfold as_notes. intros H. apply mapM_Some_1 in H.
  induction H as [|x y c l Hxy _ IH]; [reflexivity|].
  destruct x; try discriminate. injection Hxy as ->. cbn. f_equal. exact IH.
Qed.

Lemma persisted_notes (l : list Note) ls :
  persisted (setItem "notes" (JSON_stringify (Obj <$> l)) ls) = Some (Obj <$> l).
Proof. rewrite persisted_setItem, stored_as_Obj. reflexivity. Qed.

(** ** Moving a note *)

Lemma position_le {A} (l : list A) (i : Z) : (position l i ≤ length l)%nat.
Proof.
  unfold position, actualStart. destruct (Z.ltb_spec i 0); lia.
Qed.

Lemma position_in_range {A} (l : list A) (i : Z) :
  (0 ≤ i < Z.of_nat (length l))%Z → position l i = Z.to_nat i.
Proof.
  intros H. unfold position, actualStart. destruct (Z.ltb_spec i 0); lia.
Qed.

Lemma position_beyond {A} (l : list A) (i : Z) :
  (Z.of_nat (length l) ≤ i)%Z → position l i = length l.
Proof.
  intros H. unfold position, actualStart. destruct (Z.ltb_spec i 0); lia.
Qed.

Lemma splice_remove_one {A} (l : list A) (i : Z) :
  splice l i 1 [] =
    (match l !! position l i with Some x => [x] | None => [] end,
     delete (position l i) l).
Proof.
  unfold splice. fold (position l i).
  pose proof (position_le l i) as Hle.
  assert (Hk : Z.of_nat (position l i) = actualStart (Z.of_nat (length l)) i).
  { unfold position, actualStart. destruct (Z.ltb_spec i 0); lia. }
  rewrite <- Hk. cbn [app].
  destruct (l !! position l i) as [x|] eqn:Hx.
  - apply lookup_lt_Some in Hx as Hlt.
    replace (Z.to_nat (Z.min (Z.max 1 0) (Z.of_nat (length l) - Z.of_nat (position l i))))
      with 1%nat by lia.
    rewrite (drop_S _ _ _ Hx), delete_take_drop, Nat.add_1_r. reflexivity.
  - apply lookup_ge_None in Hx.
    replace (Z.to_nat (Z.min (Z.max 1 0) (Z.of_nat (length l) - Z.of_nat (position l i))))
      with 0%nat by lia.
    rewrite Nat.add_0_r, take_drop, delete_take_drop.
    rewrite (drop_ge l (S _)) by lia. rewrite (take_ge l) by lia.
    rewrite app_nil_r. reflexivity.
Qed.

Lemma splice_insert_one {A} (l : list A) (j : Z) (x : A) :
  splice l j 0 [x] = ([], (take (position l j) l ++ x :: drop (position l j) l)%list).
Proof.
  unfold splice. fold (position l j).
  replace (Z.to_nat (Z.min (Z.max 0 0) _)) with 0%nat by lia.
  rewrite Nat.add_0_r. reflexivity.
Qed.

Lemma moved_eq (l : list Slot) (i j : Z) :
  moved l i j =
    (take (position (delete (position l i) l) j) (delete (position l i) l)
     ++ default Undefined (l !! position l i)
     :: drop (position (delete (position l i) l) j) (delete (position l i) l))%list.
Proof.
  unfold moved. rewrite splice_remove_one, splice_insert_one.
  destruct (l !! position l i); reflexivity.
Qed.

Lemma position_upto {A} (l : list A) (j : Z) :
  (0 ≤ j ≤ Z.of_nat (length l))%Z → position l j = Z.to_nat j.
Proof.
  intros H. unfold position, actualStart. destruct (Z.ltb_spec j 0); lia.
Qed.

Lemma moved_in_range (l : list Slot) (i j : Z) (x : Slot) :
  (0 ≤ i)%Z → (0 ≤ j < Z.of_nat (length l))%Z →
  l !! Z.to_nat i = Some x →
  moved l i j =
    (take (Z.to_nat j) (delete (Z.to_nat i) l)
     ++ x :: drop (Z.to_nat j) (delete (Z.to_nat i) l))%list.
Proof.
  intros Hi Hj Hx. apply lookup_lt_Some in Hx as Hlt.
  rewrite moved_eq, (position_in_range l i) by lia.
  rewrite position_upto by (rewrite length_delete by eauto; lia).
  rewrite Hx. reflexivity.
Qed.

Lemma moved_restores (l : list Slot) (i j : Z) :
  (0 ≤ i < Z.of_nat (length l))%Z → (0 ≤ j < Z.of_nat (length l))%Z →
  moved (moved l i j) j i = l.
Proof.
  intros Hi Hj.
  destruct (lookup_lt_is_Some_2 l (Z.to_nat i)) as [x Hx]; [lia|].
  rewrite (moved_in_range l i j x) by (lia || done).
  set (rest := delete (Z.to_nat i) l).
  assert (Hrest : length rest = (length l - 1)%nat).
  { unfold rest. rewrite length_delete by eauto. reflexivity. }
  assert (Htake : length (take (Z.to_nat j) rest) = Z.to_nat j).
  { rewrite length_take. lia. }
  set (m := (take (Z.to_nat j) rest ++ x :: drop (Z.to_nat j) rest)%list).
  assert (Hm : m !! Z.to_nat j = Some x).
  { unfold m. rewrite lookup_app_r by lia. rewrite Htake, Nat.sub_diag. reflexivity. }
  assert (Hlen : length m = length l).
  { unfold m. rewrite length_app, Htake. cbn. rewrite length_drop. lia. }
  rewrite (moved_in_range m j i x) by (lia || done).
  assert (Hdel : delete (Z.to_nat j) m = rest).
  { unfold m. rewrite delete_take_drop.
    rewrite take_app_length' by done.
    replace (S (Z.to_nat j)) with (length (take (Z.to_nat j) rest) + 1)%nat by lia.
    rewrite drop_app_add. cbn. rewrite drop_0. apply take_drop. }
  rewrite Hdel. unfold rest. rewrite delete_take_drop.
  rewrite take_app_length' by (rewrite length_take; lia).
  rewrite drop_app_length' by (rewrite length_take; lia).
  apply take_drop_middle, Hx.
Qed.

Lemma moved_notes (notes : list Note) (i j : Z) (y : Note) :
  (0 ≤ i)%Z → (0 ≤ j < Z.of_nat (length notes))%Z →
  notes !! Z.to_nat i = Some y →
  moved (Obj <$> notes) i j =
    Obj <$> (take (Z.to_nat j) (delete (Z.to_nat i) notes)
             ++ y :: drop (Z.to_nat j) (delete (Z.to_nat i) notes))%list.
Proof.
  intros Hi Hj Hy.
  rewrite (moved_in_range _ i j (Obj y)); [| lia | rewrite length_fmap; lia |].
  - rewrite fmap_app, fmap_cons, fmap_take, fmap_drop, list_fmap_delete. reflexivity.
  - rewrite list_lookup_fmap, Hy. reflexivity.
Qed.

Lemma moved_permutation (notes : list Note) (i j : nat) (y : Note) :
  notes !! i = Some y →
  (take j (delete i notes) ++ y :: drop j (delete i notes))%list ≡ₚ notes.
Proof.
  intros Hy. rewrite <- Permutation_middle, take_drop.
  symmetry. apply delete_Permutation, Hy.
Qed.

(** C9: for a collection of length n and indices i, j in [0, n) with i ≠ j,
    moving the note at i to j and then the note at j to i gives back the
    original collection, both as the array [moveNote] returns and as the
    collection read back from storage. *)
Theorem moveNote_there_and_back (notes : list Note) (ls : Storage) (i j : Z) :
  (0 ≤ i < Z.of_nat (length notes))%Z →
  (0 ≤ j < Z.of_nat (length notes))%Z →
  i ≠ j →
  let once := moveNote (Obj <$> notes) ls i j in
  let twice := moveNote once.1 once.2 j i in
  twice.1 = Obj <$> notes ∧ persisted twice.2 = Some (Obj <$> notes).
Proof.
  intros Hi Hj _. cbn zeta. unfold moveNote. cbn [fst snd].
  rewrite moved_restores by (rewrite length_fmap; lia).
  split; [reflexivity|]. apply persisted_notes.
Qed.

Lemma moveNote_there_and_back_witness :
  let notes := [sample "1" "A"; sample "2" "B"; sample "3" "C"] in
  let once := moveNote (Obj <$> notes) ∅ 0 2 in
  let twice := moveNote once.1 once.2 2 0 in
  once.1 = Obj <$> [sample "2" "B"; sample "3" "C"; sample "1" "A"]
  ∧ twice.1 = Obj <$> notes ∧ persisted twice.2 = Some (Obj <$> notes).
Proof.
  split; [reflexivity|].
  apply (moveNote_there_and_back
           [sample "1" "A"; sample "2" "B"; sample "3" "C"] ∅ 0 2);
    cbn; lia.
Defined.

(** C10: for in-range indices, the collection [moveNote] produces holds
    note objects only, has the same length as the input and is a permutation
    of it; it is also the collection read back from storage. *)
Theorem moveNote_permutes (notes : list Note) (ls : Storage) (i j : Z) :
  (0 ≤ i < Z.of_nat (length notes))%Z →
  (0 ≤ j < Z.of_nat (length notes))%Z →
  ∃ l' : list Note,
    (moveNote (Obj <$> notes) ls i j).1 = Obj <$> l'
    ∧ length l' = length notes
    ∧ l' ≡ₚ notes
    ∧ persisted (moveNote (Obj <$> notes) ls i j).2 = Some (Obj <$> l').
Proof.
  intros Hi Hj.
  destruct (lookup_lt_is_Some_2 notes (Z.to_nat i)) as [y Hy]; [lia|].
  exists (take (Z.to_nat j) (delete (Z.to_nat i) notes)
          ++ y :: drop (Z.to_nat j) (delete (Z.to_nat i) notes))%list.
  pose proof (moved_permutation notes (Z.to_nat i) (Z.to_nat j) y Hy) as Hperm.
  unfold moveNote. cbn [fst snd].
  rewrite (moved_notes notes i j y) by (lia || done).
  split; [reflexivity|]. split; [apply Permutation_length, Hperm|].
  split; [exact Hperm|]. apply persisted_notes.
Qed.

Lemma moveNote_permutes_witness :
  ∃ l' : list Note,
    (moveNote (Obj <$> [sample "1" "A"; sample "2" "B"; sample "3" "C"]) ∅ 2 0).1
      = Obj <$> l'
    ∧ length l' = 3%nat
    ∧ l' ≡ₚ [sample "1" "A"; sample "2" "B"; sample "3" "C"]
    ∧ persisted
        (moveNote (Obj <$> [sample "1" "A"; sample "2" "B"; sample "3" "C"]) ∅ 2 0).2
      = Some (Obj <$> l').
Proof.
  apply (moveNote_permutes [sample "1" "A"; sample "2" "B"; sample "3" "C"] ∅ 2 0);
    cbn; lia.
Defined.

(** C3, as the code has it: [moveNote] validates nothing and rejects
    nothing.  For every array and every pair of integers it removes the entry
    at the position [splice] derives from [fromIndex] (a negative index counts
    from the end, the result is kept within the array), inserts it ---
    [undefined] when nothing was removed --- at the position [splice] derives
    from [toIndex] in what remains, and stores and returns that array.  In
    particular, with [fromIndex] in range and [toIndex] at or past the end the
    note becomes the last one. *)
Theorem moveNote_clamps (notes : list Slot) (ls : Storage) (fromIndex toIndex : Z) :
  let k := position notes fromIndex in
  let rest := delete k notes in
  let k' := position rest toIndex in
  let updatedNotes :=
    (take k' rest ++ default Undefined (notes !! k) :: drop k' rest)%list in
  moveNote notes ls fromIndex toIndex
    = (updatedNotes, setItem "notes" (JSON_stringify updatedNotes) ls)
  ∧ persisted (moveNote notes ls fromIndex toIndex).2 = Some (stored_as <$> updatedNotes)
  ∧ (k ≤ length notes)%nat ∧ (k' ≤ length rest)%nat
  ∧ (∀ x, (0 ≤ fromIndex)%Z → notes !! Z.to_nat fromIndex = Some x →
          (Z.of_nat (length notes) ≤ toIndex)%Z →
          updatedNotes = (delete (Z.to_nat fromIndex) notes ++ [x])%list).
Proof.
  cbn zeta. unfold moveNote. rewrite moved_eq. cbn [fst snd].
  split; [reflexivity|]. split; [apply persisted_setItem|].
  split; [apply position_le|]. split; [apply position_le|].
  intros x Hi Hx Hj. apply lookup_lt_Some in Hx as Hlt.
  rewrite (position_in_range notes fromIndex) by lia. rewrite Hx. cbn [default].
  rewrite position_beyond by (rewrite length_delete by eauto; lia).
  rewrite take_ge, drop_ge by lia. reflexivity.
Qed.

(** C3 fails on the code: with two notes, [moveNote(0, 5)] is not rejected;
    it swaps the notes in the returned array and in storage. *)
Lemma moveNote_out_of_range_applied :
  let notes := [Obj (sample "1" "A"); Obj (sample "2" "B")] in
  let ls : Storage := setItem "notes" (JSON_stringify notes) ∅ in
  (Z.of_nat (length notes) ≤ 5)%Z
  ∧ persisted ls = Some notes
  ∧ (moveNote notes ls 0 5).1 = [Obj (sample "2" "B"); Obj (sample "1" "A")]
  ∧ persisted (moveNote notes ls 0 5).2
      = Some [Obj (sample "2" "B"); Obj (sample "1" "A")]
  ∧ (moveNote notes ls 0 5).1 ≠ notes
  ∧ (moveNote notes ls 5 0).1
      = [Undefined; Obj (sample "1" "A"); Obj (sample "2" "B")].
Proof.
  cbn zeta. split; [cbn; lia|].
  split; [apply persisted_setItem|].
  split; [reflexivity|].
  split; [unfold moveNote; cbn [snd]; rewrite persisted_setItem; reflexivity|].
  split; [discriminate|reflexivity].
Qed.

(** ** Creating and updating *)

Lemma fmap_replace_id (notes : list Note) (u : Note) (k : nat) (old : Note) :
  NoDup (id <$> notes) → notes !! k = Some old → id old = id u →
  (fun note => if String.eqb (id note) (id u) then u else note) <$> notes
    = <[k := u]> notes.
Proof.
  intros Hnd Hk Hid. apply list_eq. intros n.
  rewrite list_lookup_fmap.
  destruct (decide (n = k)) as [->|Hne].
  - rewrite list_lookup_insert_eq by (eapply lookup_lt_Some, Hk).
    rewrite Hk. cbn. rewrite Hid, String.eqb_refl. reflexivity.
  - rewrite list_lookup_insert_ne by done.
    destruct (notes !! n) as [y|] eqn:Hn; [|reflexivity]. cbn.
    destruct (String.eqb_spec (id y) (id u)) as [Heq|]; [|reflexivity].
    exfalso. apply Hne.
    eapply (NoDup_lookup (id <$> notes) n k (id y)); [exact Hnd|..].
    + rewrite list_lookup_fmap, Hn. reflexivity.
    + rewrite list_lookup_fmap, Hk. cbn. congruence.
Qed.

Lemma fmap_replace_absent (notes : list Note) (u : Note) :
  id u ∉ id <$> notes →
  (fun note => if String.eqb (id note) (id u) then u else note) <$> notes = notes.
Proof.
  intros Hnot. induction notes as [|y notes IH]; [reflexivity|].
  cbn. rewrite fmap_cons in Hnot. apply not_elem_of_cons in Hnot as [Hy Hrest].
  destruct (String.eqb_spec (id y) (id u)) as [Heq|]; [congruence|].
  f_equal. apply IH, Hrest.
Qed.

Lemma step_Create (notes : list Note) ls uuid now now' note :
  step (mkState (Obj <$> notes) ls) (Create uuid now now' note)
  = Some (mkState (Obj <$> (notes ++ [(createNote notes ls uuid now now' note).1])%list)
            (createNote notes ls uuid now now' note).2).
Proof.
  unfold step, createNote. cbn [cache localStorage fst snd].
  rewrite as_notes_Obj. cbn [mbind option_bind].
  rewrite refetch_setItem, stored_as_Obj. reflexivity.
Qed.

Lemma step_Update (notes : list Note) ls u :
  step (mkState (Obj <$> notes) ls) (Update u)
  = Some (mkState
            (Obj <$> ((fun note => if String.eqb (id note) (id u) then u else note)
                        <$> notes))
            (updateNote notes ls u).2).
Proof.
  unfold step, updateNote. cbn [cache localStorage fst snd].
  rewrite as_notes_Obj. cbn [mbind option_bind].
  rewrite refetch_setItem, stored_as_Obj. reflexivity.
Qed.

Lemma step_Delete (notes : list Note) ls i :
  step (mkState (Obj <$> notes) ls) (Delete i)
  = Some (mkState
            (Obj <$> List.filter (fun note => negb (String.eqb (id note) i)) notes)
            (deleteNote notes ls i).2).
Proof.
  unfold step, deleteNote. cbn [cache localStorage fst snd].
  rewrite as_notes_Obj. cbn [mbind option_bind].
  rewrite refetch_setItem, stored_as_Obj. reflexivity.
Qed.

Lemma step_Reorder (notes : list Note) ls i j :
  step (mkState (Obj <$> notes) ls) (Reorder i j)
  = Some (mkState (moved (Obj <$> notes) i j) (moveNote (Obj <$> notes) ls i j).2).
Proof.
  unfold step, moveNote. cbn [cache localStorage fst snd].
  rewrite as_notes_Obj. reflexivity.
Qed.



(** C6: an update replaces the stored note that has the given note's id by
    the given note, whose [updatedAt] the card editor has set to the clock's
    reading before handing it to [updateNote]; every other note is kept, and
    when no stored note has that id the collection stays as it is. *)
Theorem update_replaces (notes : list Note) (ls : Storage) (given : Note) (now : string) :
  let u := touch given now in
  let r := updateNote notes ls u in
  (∀ shown selected u', card_onUpdate shown selected given now = Some u' → u' = u)
  ∧ (r.1 = u ∧ updatedAt u = now ∧ id u = id given ∧ title u = title given
     ∧ content u = content given ∧ createdAt u = createdAt given
     ∧ color u = color given ∧ tags u = tags given ∧ items u = items given)
  ∧ persisted r.2
      = Some (Obj <$> ((fun n => if decide (id n = id given) then u else n) <$> notes))
  ∧ (∀ k old, NoDup (id <$> notes) → notes !! k = Some old → id old = id given →
       persisted r.2 = Some (Obj <$> <[k := u]> notes))
  ∧ (id given ∉ id <$> notes → persisted r.2 = Some (Obj <$> notes))
  ∧ step (mkState (Obj <$> notes) ls) (Update u)
      = Some (mkState
                (Obj <$> ((fun n => if decide (id n = id given) then u else n) <$> notes))
                r.2).
Proof.
  cbn zeta.
  assert (Hmap : (fun note => if String.eqb (id note) (id (touch given now))
                              then touch given now else note) <$> notes
                 = (fun n => if decide (id n = id given) then touch given now else n)
                     <$> notes).
  { apply list_fmap_ext. intros _ n _. cbn.
    destruct (String.eqb_spec (id n) (id given)), (decide (id n = id given)); done. }
  split.
  { intros shown selected u'. unfold card_onUpdate.
    destruct selected; [|discriminate].
    destruct (_ && _); [|discriminate]. congruence. }
  split; [done|].
  split.
  { unfold updateNote. cbn [snd]. rewrite persisted_notes, Hmap. reflexivity. }
  split.
  { intros k old Hnd Hk Hid. unfold updateNote. cbn [snd].
    rewrite persisted_notes, (fmap_replace_id notes _ k old); done. }
  split.
  { intros Hnot. unfold updateNote. cbn [snd].
    rewrite persisted_notes, fmap_replace_absent; done. }
  rewrite step_Update, Hmap. reflexivity.
Qed.

Lemma update_replaces_witness :
  let notes := [sample "1" "A"; sample "2" "B"] in
  let edited := mkNote "2" "B, edited" "text" "2024-05-01T10:00:00.000Z"
                  "2024-05-01T10:00:00.000Z" COLORS_0 [] (Some []) in
  let u := touch edited "2024-05-03T09:00:00.000Z" in
  card_update notes ∅ (sample "2" "B") (Some (sample "2" "B")) edited
      "2024-05-03T09:00:00.000Z"
    = Some (updateNote notes ∅ u)
  ∧ persisted (updateNote notes ∅ u).2 = Some (Obj <$> [sample "1" "A"; u]).
Proof.
  cbn zeta. split; [reflexivity|].
  apply (proj1 (proj2 (proj2 (proj2
           (update_replaces [sample "1" "A"; sample "2" "B"] ∅
              (mkNote "2" "B, edited" "text" "2024-05-01T10:00:00.000Z"
                 "2024-05-01T10:00:00.000Z" COLORS_0 [] (Some []))
              "2024-05-03T09:00:00.000Z")))) 1%nat (sample "2" "B")).
  - apply (bool_decide_unpack _). vm_compute. exact I.
  - reflexivity.
  - reflexivity.
Defined.

(** ** Filtering *)

Lemma startsWith_spec (s sub : string) :
  startsWith s sub = true ↔ ∃ post, s = sub +:+ post.
Proof.
  revert s. induction sub as [|c sub IH]; intros s.
  - split; [intros _; exists s; reflexivity|reflexivity].
  - destruct s as [|d s]; cbn [startsWith].
    + split; [discriminate|]. intros [post H]. rewrite sapp_cons in H. discriminate.
    + rewrite andb_true_iff, IH. split.
      * intros [Hc [post ->]]. apply Ascii.eqb_eq in Hc as ->.
        exists post. reflexivity.
      * intros [post H]. rewrite sapp_cons in H. injection H as -> ->.
        split; [apply Ascii.eqb_refl|]. exists post. reflexivity.
Qed.

Lemma includes_spec (s sub : string) :
  includes s sub = true ↔ ∃ pre post, s = pre +:+ sub +:+ post.
Proof.
  induction s as [|d s IH].
  - cbn [includes]. rewrite orb_false_r, startsWith_spec. split.
    + intros [post H]. exists EmptyString, post. exact H.
    + intros [[|c pre] [post H]]; [exists post; exact H|].
      rewrite sapp_cons in H. discriminate.
  - cbn [includes]. rewrite orb_true_iff, startsWith_spec, IH. split.
    + intros [[post H]|[pre [post H]]].
      * exists EmptyString, post. exact H.
      * exists (String d pre), post. rewrite sapp_cons, H. reflexivity.
    + intros [[|c pre] [post H]].
      * left. exists post. exact H.
      * right. rewrite sapp_cons in H. injection H as -> ->.
        exists pre, post. reflexivity.
Qed.

Lemma array_includes_spec (l : list string) (x : string) :
  array_includes l x = true ↔ x ∈ l.
Proof.
  unfold array_includes. rewrite existsb_exists. split.
  - intros [y [Hin Heq]]. apply String.eqb_eq in Heq as ->.
    apply list_elem_of_In, Hin.
  - intros Hin. exists x. split; [apply list_elem_of_In, Hin|apply String.eqb_refl].
Qed.

Lemma length_zero_iff {A} (l : list A) : (length l =? 0)%nat = true ↔ l = [].
Proof. destruct l; cbn; split; (done || discriminate). Qed.

Lemma filter_twice {A} (f g : A → bool) (l : list A) :
  List.filter f (List.filter g l) = List.filter (fun x => g x && f x) l.
Proof.
  induction l as [|x l IH]; [reflexivity|]. cbn.
  destruct (g x); cbn; [destruct (f x)|]; rewrite IH; reflexivity.
Qed.

Lemma filter_sublist {A} (f : A → bool) (l : list A) : sublist (List.filter f l) l.
Proof.
  induction l as [|x l IH]; [constructor|]. cbn.
  destruct (f x); [apply sublist_skip|apply sublist_cons]; exact IH.
Qed.

Lemma lower_char_nat (c : ascii) :
  nat_of_ascii (lower_char c)
  = let n := nat_of_ascii c in
    if (65 <=? n)%nat && (n <=? 90)%nat then (n + 32)%nat else n.
Proof.
  unfold lower_char. cbn zeta.
  destruct ((65 <=? nat_of_ascii c)%nat && (nat_of_ascii c <=? 90)%nat) eqn:E;
    [|reflexivity].
  apply andb_true_iff in E as [_ E]. apply Nat.leb_le in E.
  apply nat_ascii_embedding. lia.
Qed.

Lemma nat_of_ascii_inj (a b : ascii) : nat_of_ascii a = nat_of_ascii b → a = b.
Proof.
  intros H. rewrite <- (ascii_nat_embedding a), <- (ascii_nat_embedding b), H.
  reflexivity.
Qed.

Lemma lower_char_same (a b : ascii) :
  lower_char a = lower_char b ↔ same_letter a b = true.
Proof.
  split.
  - intros H. apply (f_equal nat_of_ascii) in H. rewrite !lower_char_nat in H.
    cbn zeta in H. unfold same_letter. cbn zeta.
    destruct (Nat.leb_spec 65 (nat_of_ascii a)), (Nat.leb_spec (nat_of_ascii a) 90),
      (Nat.leb_spec 65 (nat_of_ascii b)), (Nat.leb_spec (nat_of_ascii b) 90);
      cbn [andb] in H |- *;
      repeat match goal with
             | |- context [(?x =? ?y)%nat] => destruct (Nat.eqb_spec x y)
             end; cbn; (reflexivity || lia).
  - intros H. apply nat_of_ascii_inj. rewrite !lower_char_nat. cbn zeta.
    unfold same_letter in H. cbn zeta in H.
    destruct (Nat.leb_spec 65 (nat_of_ascii a)), (Nat.leb_spec (nat_of_ascii a) 90),
      (Nat.leb_spec 65 (nat_of_ascii b)), (Nat.leb_spec (nat_of_ascii b) 90);
      cbn [andb] in H |- *;
      repeat match type of H with
             | context [(?x =? ?y)%nat] => destruct (Nat.eqb_spec x y)
             end; cbn in H; (lia || discriminate).
Qed.

Lemma lower_ascii_same (a b : string) :
  lower_ascii a = lower_ascii b ↔ ci_equal a b = true.
Proof.
  revert b. induction a as [|x a IH]; intros [|y b]; cbn [lower_ascii ci_equal];
    try (split; (reflexivity || discriminate)).
  rewrite andb_true_iff, <- lower_char_same, <- IH. split.
  - intros [= H1 H2]. done.
  - intros [-> ->]. reflexivity.
Qed.

Lemma lower_ascii_app (a b : string) :
  lower_ascii (a +:+ b) = lower_ascii a +:+ lower_ascii b.
Proof.
  induction a as [|x a IH]; [reflexivity|].
  rewrite !sapp_cons. cbn [lower_ascii]. rewrite sapp_cons, IH. reflexivity.
Qed.

Lemma lower_ascii_split (s a b : string) :
  lower_ascii s = a +:+ b →
  ∃ s1 s2, s = s1 +:+ s2 ∧ lower_ascii s1 = a ∧ lower_ascii s2 = b.
Proof.
  revert s. induction a as [|x a IH]; intros s H.
  - exists EmptyString, s. done.
  - destruct s as [|y s]; [rewrite sapp_cons in H; discriminate|].
    rewrite sapp_cons in H. cbn [lower_ascii] in H. injection H as Hx H.
    destruct (IH s H) as (s1 & s2 & -> & <- & <-).
    exists (String y s1), s2. rewrite sapp_cons. cbn [lower_ascii]. rewrite Hx. done.
Qed.

(** The search of the code, on ASCII text, is the case-insensitive substring
    test. *)
Lemma includes_lower_ascii (s q : string) :
  includes (lower_ascii s) (lower_ascii q) = true ↔ ci_substring q s.
Proof.
  rewrite includes_spec. unfold ci_substring. split.
  - intros (pre & post & H).
    apply lower_ascii_split in H as (s1 & s2 & -> & _ & H).
    apply lower_ascii_split in H as (mid & s3 & -> & H & _).
    exists s1, mid, s3. split; [reflexivity|]. apply lower_ascii_same. done.
  - intros (pre & mid & post & -> & H). apply lower_ascii_same in H.
    exists (lower_ascii pre), (lower_ascii post).
    rewrite !lower_ascii_app, H. reflexivity.
Qed.

(** The filter with the ASCII case mapping in the place of [toLowerCase]. *)
Lemma filteredNotes_ascii (toLowerCase : string → string)
    (selectedColors selectedTags : list string) (searchQuery : string)
    (notes : list Note) :
  lowers_ascii toLowerCase →
  ascii_text searchQuery = true →
  Forall ascii_note notes →
  filteredNotes toLowerCase selectedColors selectedTags searchQuery notes
  = filteredNotes lower_ascii selectedColors selectedTags searchQuery notes.
Proof.
  intros Hl Hq Hn. unfold filteredNotes. apply List.filter_ext_in.
  intros n Hin. apply filter_In in Hin as [Hin _].
  rewrite Forall_forall in Hn. apply list_elem_of_In, Hn in Hin.
  destruct Hin as (Ht & Hc & Htags).
  rewrite (Hl searchQuery Hq), (Hl (title n) Ht), (Hl (content n) Hc).
  destruct (String.eqb searchQuery EmptyString); [reflexivity|].
  f_equal. rewrite Forall_forall in Htags.
  induction (tags n) as [|t l IH]; [reflexivity|]. cbn [existsb].
  rewrite (Hl t) by (apply Htags, list_elem_of_here).
  rewrite IH; [reflexivity|]. intros x Hx. apply Htags, list_elem_of_further, Hx.
Qed.

(** C7, as the code has it: [filteredNotes] keeps, in their order, exactly
    the notes that match the criteria: (no colour selected or the note's
    colour is selected) and (no tag selected or one of the note's tags is
    selected) and (the search string is empty or, in lower case, is a
    substring of the title, of the content or of one of the tags in lower
    case).  On ASCII text, where [toLowerCase] maps the letters A to Z and
    nothing else, the last condition is: the search string is a
    case-insensitive substring of the title, of the content or of one of the
    tags. *)
Theorem filteredNotes_matches (toLowerCase : string → string)
    (selectedColors selectedTags : list string)
    (searchQuery : string) (notes : list Note) :
  ∃ keep : Note → bool,
    (∀ n, keep n = true
          ↔ matches_lowered toLowerCase selectedColors selectedTags searchQuery n)
    ∧ filteredNotes toLowerCase selectedColors selectedTags searchQuery notes
      = List.filter keep notes
    ∧ sublist (filteredNotes toLowerCase selectedColors selectedTags searchQuery notes)
        notes
    ∧ (∀ n, n ∈ filteredNotes toLowerCase selectedColors selectedTags searchQuery notes
            ↔ n ∈ notes
              ∧ matches_lowered toLowerCase selectedColors selectedTags searchQuery n)
    ∧ (lowers_ascii toLowerCase →
       ascii_text searchQuery = true →
       Forall ascii_note notes →
       (∀ n, n ∈ notes →
             (matches_lowered toLowerCase selectedColors selectedTags searchQuery n
              ↔ matches selectedColors selectedTags searchQuery n))
       ∧ (∀ n, n ∈ filteredNotes toLowerCase selectedColors selectedTags searchQuery
                     notes
               ↔ n ∈ notes ∧ matches selectedColors selectedTags searchQuery n)).
Proof.
  unfold filteredNotes. rewrite filter_twice.
  match goal with |- context [List.filter ?k notes] => set (keep := k) end.
  assert (Hkeep : ∀ n, keep n = true
                       ↔ matches_lowered toLowerCase selectedColors selectedTags
                           searchQuery n).
  { intros n. unfold keep, matches_lowered, lowered_substring.
    rewrite andb_true_iff.
    assert (Hsel : (if (length selectedColors =? 0)%nat && (length selectedTags =? 0)%nat
                    then true
                    else ((length selectedColors =? 0)%nat
                          || array_includes selectedColors (color n))
                         && ((length selectedTags =? 0)%nat
                             || existsb (fun tag => array_includes (tags n) tag)
                                  selectedTags)) = true
                   ↔ (selectedColors = [] ∨ color n ∈ selectedColors)
                     ∧ (selectedTags = [] ∨ ∃ t, t ∈ tags n ∧ t ∈ selectedTags)).
    { assert (Hex : existsb (fun tag => array_includes (tags n) tag) selectedTags = true
                    ↔ ∃ t, t ∈ tags n ∧ t ∈ selectedTags).
      { rewrite existsb_exists. split.
        - intros [t [Hin Ht]]. exists t. split; [apply array_includes_spec, Ht|].
          apply list_elem_of_In, Hin.
        - intros [t [Ht Hin]]. exists t. split; [apply list_elem_of_In, Hin|].
          apply array_includes_spec, Ht. }
      destruct ((length selectedColors =? 0)%nat && (length selectedTags =? 0)%nat) eqn:E.
      - apply andb_true_iff in E as [E1 E2].
        apply length_zero_iff in E1, E2. split; [|done]. intros _. split; left; done.
      - rewrite andb_true_iff, !orb_true_iff, !length_zero_iff,
          array_includes_spec, Hex. reflexivity. }
    rewrite Hsel.
    assert (Hsearch : (if String.eqb searchQuery EmptyString then true
                  else includes (toLowerCase (title n)) (toLowerCase searchQuery)
                       || includes (toLowerCase (content n)) (toLowerCase searchQuery)
                       || existsb (fun tag => includes (toLowerCase tag)
                                                (toLowerCase searchQuery)) (tags n)) = true
                 ↔ (searchQuery = EmptyString
                    ∨ (∃ pre post, toLowerCase (title n)
                                   = pre +:+ toLowerCase searchQuery +:+ post)
                    ∨ (∃ pre post, toLowerCase (content n)
                                   = pre +:+ toLowerCase searchQuery +:+ post)
                    ∨ ∃ t, t ∈ tags n
                           ∧ ∃ pre post, toLowerCase t
                                         = pre +:+ toLowerCase searchQuery +:+ post)).
    { destruct (String.eqb_spec searchQuery EmptyString) as [->|Hne].
      - split; [intros _; left; reflexivity|reflexivity].
      - rewrite !orb_true_iff, !includes_spec, existsb_exists. split.
        + intros [[H|H]|[t [Hin H]]]; right.
          * left. exact H.
          * right. left. exact H.
          * right. right. exists t. split; [apply list_elem_of_In, Hin|].
            apply includes_spec, H.
        + intros [H|[H|[H|[t [Hin H]]]]]; [done| | |].
          * left. left. exact H.
          * left. right. exact H.
          * right. exists t. split; [apply list_elem_of_In, Hin|].
            apply includes_spec, H. }
    rewrite Hsearch. tauto. }
  assert (Hmem : ∀ n, n ∈ List.filter keep notes
                      ↔ n ∈ notes
                        ∧ matches_lowered toLowerCase selectedColors selectedTags
                            searchQuery n).
  { intros n. rewrite list_elem_of_In, filter_In, <- list_elem_of_In, Hkeep.
    reflexivity. }
  exists keep. split; [exact Hkeep|]. split; [reflexivity|].
  split; [apply filter_sublist|]. split; [exact Hmem|].
  intros Hl Hq Hn.
  assert (Hsame : ∀ n, n ∈ notes →
            (matches_lowered toLowerCase selectedColors selectedTags searchQuery n
             ↔ matches selectedColors selectedTags searchQuery n)).
  { intros n Hin. rewrite Forall_forall in Hn. destruct (Hn n Hin) as (Ht & Hc & Htags).
    rewrite Forall_forall in Htags.
    assert (Hsub : ∀ s, ascii_text s = true →
              (lowered_substring toLowerCase searchQuery s ↔ ci_substring searchQuery s)).
    { intros s Hs. unfold lowered_substring. rewrite (Hl s Hs), (Hl searchQuery Hq).
      rewrite <- includes_spec. apply includes_lower_ascii. }
    unfold matches_lowered, matches. rewrite (Hsub _ Ht), (Hsub _ Hc).
    assert (Htg : (∃ t, t ∈ tags n ∧ lowered_substring toLowerCase searchQuery t)
                  ↔ ∃ t, t ∈ tags n ∧ ci_substring searchQuery t).
    { split; intros (t & Hin' & H); exists t; (split; [exact Hin'|]);
        apply (Hsub t (Htags t Hin')), H. }
    rewrite Htg. reflexivity. }
  split; [exact Hsame|].
  intros n. rewrite Hmem. split; intros [Hin H]; (split; [exact Hin|]);
    apply (Hsame n Hin), H.
Qed.

Lemma filteredNotes_matches_witness :
  let notes := [ mkNote "1" "Groceries" "milk, eggs" "2024-05-01T10:00:00.000Z"
                   "2024-05-01T10:00:00.000Z" COLORS_0 ["home"] (Some []);
                 sample "2" "Taxes";
                 mkNote "3" "Call" "the GROCER" "2024-05-01T10:00:00.000Z"
                   "2024-05-01T10:00:00.000Z" COLORS_0 [] None ] in
  filteredNotes lower_ascii [COLORS_0] [] "gRoCe" notes
  = [ mkNote "1" "Groceries" "milk, eggs" "2024-05-01T10:00:00.000Z"
        "2024-05-01T10:00:00.000Z" COLORS_0 ["home"] (Some []);
      mkNote "3" "Call" "the GROCER" "2024-05-01T10:00:00.000Z"
        "2024-05-01T10:00:00.000Z" COLORS_0 [] None ]
  ∧ ∀ n, n ∈ filteredNotes lower_ascii [COLORS_0] [] "gRoCe" notes
         ↔ n ∈ notes ∧ matches [COLORS_0] [] "gRoCe" n.
Proof.
  cbn zeta. split; [reflexivity|].
  destruct (filteredNotes_matches lower_ascii [COLORS_0] [] "gRoCe"
              [ mkNote "1" "Groceries" "milk, eggs" "2024-05-01T10:00:00.000Z"
                  "2024-05-01T10:00:00.000Z" COLORS_0 ["home"] (Some []);
                sample "2" "Taxes";
                mkNote "3" "Call" "the GROCER" "2024-05-01T10:00:00.000Z"
                  "2024-05-01T10:00:00.000Z" COLORS_0 [] None ])
    as (keep & _ & _ & _ & _ & H).
  apply H.
  - intros s _. reflexivity.
  - reflexivity.
  - repeat constructor.
Defined.

(** C7 fails on the code as the claim words it: [toLowerCase] writes a Σ
    that ends a word as ς and a Σ inside a word as σ, so the search string
    ΟΣ in lower case, ος, is not a substring of the title ΟΣΟ in lower case,
    οσο.  The note is left out although the search string is, letter for
    letter, a substring of its title. *)
Lemma search_misses_final_sigma :
  let note := sample "1" "ΟΣΟ" in
  title note = "ΟΣ" +:+ "Ο"
  ∧ matches [] [] "ΟΣ" note
  ∧ toLowerCase_greek "ΟΣ" = "ος"
  ∧ toLowerCase_greek "ΟΣΟ" = "οσο"
  ∧ filteredNotes toLowerCase_greek [] [] "ΟΣ" [note] = [].
Proof.
  cbn zeta. split; [reflexivity|]. split.
  { split; [left; reflexivity|]. split; [left; reflexivity|].
    right. left. exists EmptyString, "ΟΣ", "Ο". split; reflexivity. }
  split; [reflexivity|]. split; reflexivity.
Qed.

(** ** No drift between the component and storage *)

Lemma position_removes {A} (l : list A) (i : Z) :
  (0 < length l)%nat → (i < Z.of_nat (length l))%Z → (position l i < length l)%nat.
Proof.
  intros Hn Hi. unfold position, actualStart. destruct (Z.ltb_spec i 0); lia.
Qed.

Lemma moved_notes_any (notes : list Note) (i j : Z) :
  (0 < length notes)%nat → (i < Z.of_nat (length notes))%Z →
  ∃ l' : list Note, moved (Obj <$> notes) i j = Obj <$> l'.
Proof.
  intros Hn Hi. rewrite moved_eq.
  set (k := position (Obj <$> notes) i).
  assert (Hk : (k < length (Obj <$> notes))%nat).
  { apply position_removes; rewrite length_fmap; lia. }
  rewrite length_fmap in Hk.
  destruct (lookup_lt_is_Some_2 notes k Hk) as [y Hy].
  rewrite list_lookup_fmap, Hy. cbn [fmap option_fmap option_map default].
  rewrite <- list_fmap_delete.
  set (k' := position _ j).
  exists (take k' (delete k notes) ++ y :: drop k' (delete k notes))%list.
  rewrite fmap_app, fmap_cons, fmap_take, fmap_drop. reflexivity.
Qed.

Lemma step_in_sync (s : State) (op : Op) (notes : list Note) :
  as_notes (cache s) = Some notes → removes_entry s op →
  ∃ s' notes', step s op = Some s' ∧ in_sync s' ∧ as_notes (cache s') = Some notes'.
Proof.
  intros Hc Hop. apply as_notes_Some in Hc. destruct s as [c ls]. cbn in Hc. subst c.
  destruct op as [uuid now note|u|i|fi ti].
  - rewrite step_Create. eexists _, _. split; [reflexivity|].
    split; [apply persisted_notes|apply as_notes_Obj].
  - rewrite step_Update. eexists _, _. split; [reflexivity|].
    split; [apply persisted_notes|apply as_notes_Obj].
  - rewrite step_Delete. eexists _, _. split; [reflexivity|].
    split; [apply persisted_notes|apply as_notes_Obj].
  - rewrite step_Reorder. cbn in Hop. rewrite length_fmap in Hop.
    destruct (moved_notes_any notes fi ti) as [l' Hl']; [lia..|].
    eexists _, l'. split; [reflexivity|]. unfold in_sync, moveNote. cbn [cache localStorage snd].
    rewrite Hl'. split; [apply persisted_notes|apply as_notes_Obj].
Qed.

(** C8, as the code has it: from any state in which the component holds
    notes (whatever is stored), along every sequence of create, update,
    delete and move operations in which each move is applied to a non-empty
    collection with [fromIndex] below its length, every operation completes,
    and after each one the collection read back from storage is exactly the
    collection the component holds. *)
Theorem no_drift (s : State) (ops : list Op) :
  is_Some (as_notes (cache s)) →
  all_remove s ops →
  length (run s ops) = length ops
  ∧ Forall in_sync (run s ops)
  ∧ Forall (fun s' => is_Some (as_notes (cache s'))) (run s ops).
Proof.
  revert s. induction ops as [|op ops IH]; intros s [notes Hc] Hall.
  { cbn. split; [reflexivity|]. split; constructor. }
  cbn [all_remove] in Hall. destruct Hall as [Hop Hrest].
  destruct (step_in_sync s op notes Hc Hop) as (s' & notes' & Hstep & Hsync & Hc').
  cbn [run]. rewrite Hstep in Hrest |- *.
  destruct (IH s' (ex_intro _ notes' Hc') Hrest) as (Hlen & Hs & Hn).
  cbn [length]. split; [rewrite Hlen; reflexivity|].
  split; constructor; eauto.
Qed.

Lemma no_drift_witness :
  let s := mkState [Obj (sample "1" "A")] ∅ in
  let ops := [ Create "7f6c-0002" "2024-05-02T08:30:00.000Z" "2024-05-02T08:30:00.001Z"
                 (typed_fields "B" "b");
               Reorder 1 0;
               Update (touch (sample "1" "A, edited") "2024-05-02T08:31:00.000Z");
               Reorder 0 7;
               Delete "7f6c-0002" ] in
  length (run s ops) = 5%nat
  ∧ Forall in_sync (run s ops)
  ∧ Forall (fun s' => is_Some (as_notes (cache s'))) (run s ops).
Proof.
  apply (no_drift (mkState [Obj (sample "1" "A")] ∅)).
  - eexists. reflexivity.
  - cbn [all_remove].
    rewrite (step_Create [sample "1" "A"]).
    split; [exact I|].
    rewrite (step_Reorder ([sample "1" "A"] ++ [_])).
    split; [cbn; lia|].
    replace (moved _ 1 0) with (Obj <$> [(createNote [sample "1" "A"] ∅ "7f6c-0002"
        "2024-05-02T08:30:00.000Z" "2024-05-02T08:30:00.001Z"
        (typed_fields "B" "b")).1; sample "1" "A"])
      by reflexivity.
    rewrite step_Update. split; [exact I|].
    rewrite step_Reorder. split; [cbn; lia|].
    match goal with |- context [moved (Obj <$> ?l) 0 7] =>
      replace (moved (Obj <$> l) 0 7)
        with (Obj <$> [touch (sample "1" "A, edited") "2024-05-02T08:31:00.000Z";
                       (createNote [sample "1" "A"] ∅ "7f6c-0002"
                          "2024-05-02T08:30:00.000Z" "2024-05-02T08:30:00.001Z"
                          (typed_fields "B" "b")).1])
        by reflexivity end.
    rewrite step_Delete. split; [exact I|exact I].
Defined.

(** C8 fails on the code: a move whose [fromIndex] is the length of the
    collection removes nothing and inserts [undefined]; the component then
    holds [undefined] where storage holds [null]. *)
Lemma drift_after_move_out_of_range :
  let notes := [Obj (sample "1" "A")] in
  let s := mkState notes (setItem "notes" (JSON_stringify notes) ∅) in
  in_sync s
  ∧ ∃ s', run s [Reorder 1 0] = [s']
          ∧ cache s' = [Undefined; Obj (sample "1" "A")]
          ∧ persisted (localStorage s') = Some [Null; Obj (sample "1" "A")]
          ∧ ¬ in_sync s'.
Proof.
  cbn zeta. split; [apply persisted_setItem|].
  exists (mkState [Undefined; Obj (sample "1" "A")]
            (setItem "notes" (JSON_stringify [Undefined; Obj (sample "1" "A")])
               (setItem "notes" (JSON_stringify [Obj (sample "1" "A")]) ∅))).
  split; [reflexivity|]. split; [reflexivity|].
  unfold in_sync. cbn [localStorage cache]. rewrite persisted_setItem.
  split; [reflexivity|discriminate].
Qed.

(** ** Loading *)

(** C2, as the code has it: the query function returns the empty array when
    nothing is stored under the key or the stored text is empty, and the
    parsed value --- whatever it is --- when the text is valid JSON; text
    this program stored reads back as the notes that were written.  On text
    that is not valid JSON it has no fallback: [JSON.parse] throws, and it is
    the query that is left without data, so that the component's [notes]
    binding takes its default, the empty array. *)
Theorem load_outcomes (ls : Storage) :
  (getItem "notes" ls = None → queryFn ls = Returns (JArray []))
  ∧ (getItem "notes" ls = Some EmptyString → queryFn ls = Returns (JArray []))
  ∧ (∀ text, getItem "notes" ls = Some text → text ≠ EmptyString →
       Json.parse text = None →
       queryFn ls = Throws SyntaxError
       ∧ persisted ls = None
       ∧ notes_binding (useQuery_data None ls) = JArray [])
  ∧ (∀ text v, getItem "notes" ls = Some text → text ≠ EmptyString →
       Json.parse text = Some v →
       queryFn ls = Returns v ∧ notes_binding (useQuery_data None ls) = v)
  ∧ (∀ l : list Slot, getItem "notes" ls = Some (JSON_stringify l) →
       persisted ls = Some (stored_as <$> l)).
Proof.
  unfold persisted, useQuery_data, queryFn.
  split; [intros ->; reflexivity|].
  split; [intros ->; reflexivity|].
  split.
  { intros text -> Hne Hp. apply String.eqb_neq in Hne. rewrite Hne, Hp. done. }
  split.
  { intros text v -> Hne Hp. apply String.eqb_neq in Hne. rewrite Hne, Hp. done. }
  intros l ->. rewrite stringify_truthy, parse_stringify. apply decode_encode_notes.
Qed.

Lemma load_outcomes_witness :
  queryFn ∅ = Returns (JArray [])
  ∧ queryFn {[ "notes" := "{oops" ]} = Throws SyntaxError
  ∧ notes_binding (useQuery_data None {[ "notes" := "{oops" ]}) = JArray []
  ∧ persisted {[ "notes" := JSON_stringify [Obj (sample "1" "A")] ]}
      = Some [Obj (sample "1" "A")].
Proof.
  split; [apply (proj1 (load_outcomes ∅)); reflexivity|].
  destruct (proj1 (proj2 (proj2 (load_outcomes {[ "notes" := "{oops" ]})))
              "{oops" (lookup_singleton_eq _ _)) as (Ht & _ & Hn);
    [discriminate|reflexivity|].
  split; [exact Ht|]. split; [exact Hn|].
  apply ((proj2 (proj2 (proj2 (proj2
            (load_outcomes {[ "notes" := JSON_stringify [Obj (sample "1" "A")] ]})))))
           [Obj (sample "1" "A")]).
  apply lookup_singleton_eq.
Defined.

(** C2 fails on the code: stored text that is not valid JSON makes the query
    function throw instead of returning the empty array, and stored text that
    is valid JSON of another shape is returned as it is --- the number 5, or
    [null], which the default of the [notes] binding does not replace. *)
Lemma load_throws_on_corrupt_text :
  Json.parse "{oops" = None
  ∧ queryFn {[ "notes" := "{oops" ]} = Throws SyntaxError
  ∧ queryFn {[ "notes" := "{oops" ]} ≠ Returns (JArray [])
  ∧ queryFn {[ "notes" := "5" ]} = Returns (JNumber "5")
  ∧ decode_notes (JNumber "5") = None
  ∧ notes_binding (useQuery_data None {[ "notes" := "null" ]}) = JNull.
Proof.
  assert (H1 : queryFn {[ "notes" := "{oops" ]} = Throws SyntaxError).
  { unfold queryFn, getItem. rewrite lookup_singleton_eq. reflexivity. }
  split; [reflexivity|]. split; [exact H1|]. split; [rewrite H1; discriminate|].
  split; [unfold queryFn, getItem; rewrite lookup_singleton_eq; reflexivity|].
  split; [reflexivity|].
  unfold useQuery_data, queryFn, getItem. rewrite lookup_singleton_eq. reflexivity.
Qed.

(** ** The draft of the creation dialog *)

Lemma elem_of_filter_bool {A} (f : A → bool) (l : list A) (x : A) :
  x ∈ List.filter f l ↔ x ∈ l ∧ f x = true.
Proof. rewrite !list_elem_of_In. apply filter_In. Qed.

Lemma truthy_true (s : string) : truthy s = true ↔ s ≠ EmptyString.
Proof.
  unfold truthy. destruct (String.eqb_spec s EmptyString); cbn; split; done.
Qed.

Lemma close_effect_discards (r a : Dialog.Notebook) (d : string) :
  Dialog.isModalOpen r = false → Dialog.draftId r = Some d → d ≠ EmptyString →
  Dialog.close_effect r a
  = Dialog.mkNotebook (Dialog.isModalOpen a) (Dialog.newNote a) None (Dialog.notes a)
      (setItem "notes"
         (JSON_stringify
            (Obj <$> List.filter (fun note => negb (bool_decide (Some (id note) = Some d)))
                       (Dialog.notes r)))
         (Dialog.storage a)).
Proof.
  intros Ho Hd Hne. unfold Dialog.close_effect. rewrite Ho, Hd. cbn [negb andb truthy_id].
  apply truthy_true in Hne. rewrite Hne. reflexivity.
Qed.

Lemma closed_quiet uuid now (e : Dialog.Event) (s : Dialog.Notebook) :
  Dialog.isModalOpen s = false → Dialog.quiet e = true →
  Dialog.isModalOpen (Dialog.handle uuid now e s) = false
  ∧ Dialog.draftId (Dialog.handle uuid now e s) = Dialog.draftId s
  ∧ Dialog.storage (Dialog.handle uuid now e s) = Dialog.storage s.
Proof.
  intros Ho Hq. destruct e as [open|fields| | |]; try discriminate Hq;
    cbn [Dialog.handle].
  - split; [exact Ho|]. split; reflexivity.
  - unfold Dialog.draft_effect. rewrite Ho. cbn [andb]. split; [exact Ho|].
    split; reflexivity.
  - destruct (_ ≫= _); (split; [exact Ho|]; split; reflexivity).
Qed.

Lemma closed_session uuid now (es : list Dialog.Event) (s : Dialog.Notebook) :
  Dialog.isModalOpen s = false → forallb Dialog.quiet es = true →
  Dialog.isModalOpen (Dialog.session uuid now es s) = false
  ∧ Dialog.draftId (Dialog.session uuid now es s) = Dialog.draftId s
  ∧ Dialog.storage (Dialog.session uuid now es s) = Dialog.storage s.
Proof.
  revert s. induction es as [|e es IH]; intros s Ho Hq; [done|].
  cbn [forallb] in Hq. apply andb_prop in Hq as [He Hes].
  destruct (closed_quiet uuid now e s Ho He) as (Ho' & Hd' & Hs').
  change (Dialog.session uuid now (e :: es) s)
    with (Dialog.session uuid now es (Dialog.handle uuid now e s)).
  destruct (IH _ Ho' Hes) as (Ho'' & Hd'' & Hs'').
  split; [exact Ho''|]. split; congruence.
Qed.

(** C4: when the dialog is open with a draft id and is closed without an
    explicit save --- dismissed, or left through the button while the title
    is blank --- the dialog ends closed with no draft id, and the stored
    collection is the notes of the render without any note of that id.
    Nothing that happens while the dialog stays closed (edits of the form, a
    debounced value arriving late, a refetch) writes to storage again. *)
Theorem close_discards_draft (uuid : string) (now : nat → string)
    (s : Dialog.Notebook) (d : string) (e : Dialog.Event)
    (later : list Dialog.Event) :
  Dialog.isModalOpen s = true →
  Dialog.draftId s = Some d →
  d ≠ EmptyString →
  e = Dialog.SetOpen false
  ∨ (e = Dialog.Save ∧ trim (f_title (Dialog.newNote s)) = EmptyString) →
  forallb Dialog.quiet later = true →
  let s' := Dialog.handle uuid now e s in
  let s'' := Dialog.session uuid now later s' in
  Dialog.isModalOpen s' = false
  ∧ Dialog.draftId s' = None
  ∧ (∃ l : list Note,
        persisted (Dialog.storage s') = Some (Obj <$> l)
        ∧ (d ∉ id <$> l)
        ∧ (∀ n, n ∈ l ↔ n ∈ Dialog.notes s ∧ id n ≠ d))
  ∧ Dialog.storage s'' = Dialog.storage s'
  ∧ Dialog.draftId s'' = None.
Proof.
  intros Ho Hd Hne He Hlater. cbn zeta.
  set (r := Dialog.mkNotebook false (Dialog.newNote s) (Dialog.draftId s)
              (Dialog.notes s) (Dialog.storage s)).
  assert (Hs' : Dialog.handle uuid now e s = Dialog.toggled uuid now r).
  { destruct He as [->|[-> Hblank]]; cbn [Dialog.handle].
    - rewrite Ho. reflexivity.
    - unfold Dialog.handleSave. rewrite Hblank. cbn [truthy String.eqb negb].
      cbn [Dialog.isModalOpen]. rewrite Ho. reflexivity. }
  rewrite Hs'.
  assert (Ht : Dialog.toggled uuid now r
               = Dialog.mkNotebook false blank_fields None (Dialog.notes s)
                   (setItem "notes"
                      (JSON_stringify
                         (Obj <$> List.filter
                                    (fun note => negb (bool_decide (Some (id note) = Some d)))
                                    (Dialog.notes s)))
                      (Dialog.storage s))).
  { unfold Dialog.toggled.
    assert (Hdraft : ∀ a, Dialog.draft_effect uuid now r a = a) by reflexivity.
    rewrite Hdraft, (close_effect_discards r _ d) by done. reflexivity. }
  rewrite Ht.
  match goal with |- context [Dialog.session uuid now later ?st] =>
    destruct (closed_session uuid now later st eq_refl Hlater) as (_ & Hd'' & Hs'')
  end.
  split; [reflexivity|]. split; [reflexivity|].
  split; [|split; [exact Hs''|exact Hd'']].
  eexists. cbn [Dialog.storage]. split; [apply persisted_notes|].
  assert (Hin : ∀ n, n ∈ List.filter
                        (fun note => negb (bool_decide (Some (id note) = Some d)))
                        (Dialog.notes s)
                     ↔ n ∈ Dialog.notes s ∧ id n ≠ d).
  { intros n. rewrite elem_of_filter_bool, negb_true_iff, bool_decide_eq_false.
    split; intros [H1 H2]; (split; [exact H1|congruence]). }
  split; [|exact Hin].
  intros Hel. apply list_elem_of_fmap in Hel as [n [Hid Hn]].
  apply Hin in Hn as [_ Hn]. congruence.
Qed.

Lemma close_discards_draft_witness :
  let s0 := Dialog.mkNotebook false blank_fields None [sample "1" "A"]
              (setItem "notes" (JSON_stringify [Obj (sample "1" "A")]) ∅) in
  let uuid := "7f6c-0002" in
  let now := clock "2024-05-02T08:30:00.000Z" "2024-05-02T08:30:00.001Z" in
  let s := Dialog.session uuid now
             [Dialog.SetOpen true; Dialog.Edit (typed_fields "X" EmptyString);
              Dialog.Debounced] s0 in
  Dialog.draftId s = Some uuid
  ∧ (∃ draft, persisted (Dialog.storage s) = Some [Obj (sample "1" "A"); Obj draft]
              ∧ id draft = uuid ∧ title draft = "X")
  ∧ (let s' := Dialog.handle uuid now (Dialog.SetOpen false) s in
     let s'' := Dialog.session uuid now [Dialog.Debounced; Dialog.Refetched] s' in
     Dialog.isModalOpen s' = false
     ∧ Dialog.draftId s' = None
     ∧ (∃ l : list Note,
          persisted (Dialog.storage s') = Some (Obj <$> l)
          ∧ (uuid ∉ id <$> l)
          ∧ (∀ n, n ∈ l ↔ n ∈ Dialog.notes s ∧ id n ≠ uuid))
     ∧ Dialog.storage s'' = Dialog.storage s'
     ∧ Dialog.draftId s'' = None).
Proof.
  cbn zeta. split; [reflexivity|]. split.
  { exists (mkNote "7f6c-0002" "X" EmptyString "2024-05-02T08:30:00.000Z"
              "2024-05-02T08:30:00.001Z" COLORS_0 [] (Some [])).
    split; [|split; reflexivity].
    apply (persisted_notes [sample "1" "A"; _]). }
  apply (close_discards_draft "7f6c-0002"
           (clock "2024-05-02T08:30:00.000Z" "2024-05-02T08:30:00.001Z") _ "7f6c-0002"
           (Dialog.SetOpen false) [Dialog.Debounced; Dialog.Refetched]).
  - reflexivity.
  - reflexivity.
  - discriminate.
  - left. reflexivity.
  - reflexivity.
Defined.

(** ** Titles *)

Lemma persisted_titled (l : list Note) ls :
  Forall titled l →
  ∃ l' : list Note,
    persisted (setItem "notes" (JSON_stringify (Obj <$> l)) ls) = Some (Obj <$> l')
    ∧ Forall titled l'.
Proof. intros H. exists l. split; [apply persisted_notes|exact H]. Qed.

Lemma overwrite_titled (notes : list Note) (d : option string)
    (fields : NoteFields) (now : nat → string) (k : nat) :
  truthy (trim (f_title fields)) = true → Forall titled notes →
  Forall titled (map_draft d fields now k notes).
Proof.
  intros Ht H. revert k. induction H as [|n notes Hn _ IH]; intros k; [constructor|].
  cbn [map_draft]. destruct (bool_decide _); (constructor; [|apply IH]).
  - apply truthy_true, Ht.
  - exact Hn.
Qed.

Lemma draft_effect_titled uuid now (r a : Dialog.Notebook) :
  Forall titled (Dialog.notes r) → Dialog.all_titled a →
  Dialog.all_titled (Dialog.draft_effect uuid now r a).
Proof.
  intros Hr [Ha Hs]. unfold Dialog.draft_effect.
  destruct (Dialog.isModalOpen r); cbn [andb]; [|split; done].
  destruct (truthy (trim (f_title (Dialog.newNote r)))) eqn:Ht; [|split; done].
  destruct (negb (truthy_id (Dialog.draftId r))).
  - split; [exact Ha|]. cbn [Dialog.storage]. apply persisted_titled.
    apply Forall_app. split; [exact Hr|]. constructor; [|constructor].
    apply truthy_true, Ht.
  - split; [exact Ha|]. cbn [Dialog.storage]. apply persisted_titled.
    apply overwrite_titled; done.
Qed.

Lemma filter_titled (f : Note → bool) (l : list Note) :
  Forall titled l → Forall titled (List.filter f l).
Proof.
  rewrite !Forall_forall. intros H n Hn. apply H.
  apply elem_of_filter_bool in Hn as [Hn _]. exact Hn.
Qed.

Lemma close_effect_titled (r a : Dialog.Notebook) :
  Forall titled (Dialog.notes r) → Dialog.all_titled a →
  Dialog.all_titled (Dialog.close_effect r a).
Proof.
  intros Hr [Ha Hs]. unfold Dialog.close_effect.
  destruct (_ && _); [|split; done].
  split; [exact Ha|]. cbn [Dialog.storage]. apply persisted_titled, filter_titled, Hr.
Qed.

Lemma toggled_titled uuid now (r : Dialog.Notebook) :
  Dialog.all_titled r → Dialog.all_titled (Dialog.toggled uuid now r).
Proof.
  intros Hr. pose proof (proj1 Hr) as Hn. unfold Dialog.toggled.
  apply close_effect_titled; [exact Hn|].
  apply draft_effect_titled; [exact Hn|].
  unfold Dialog.reset_effect. destruct (negb _); exact Hr.
Qed.

Lemma handleSave_titled uuid now (s : Dialog.Notebook) :
  Dialog.all_titled s → Dialog.all_titled (Dialog.handleSave uuid now s).
Proof.
  intros [Hn Hs]. unfold Dialog.handleSave.
  destruct (truthy (trim (f_title (Dialog.newNote s)))) eqn:Ht; [|split; done].
  destruct (truthy_id (Dialog.draftId s)).
  - split; [exact Hn|]. cbn [Dialog.storage]. apply persisted_titled.
    apply overwrite_titled; done.
  - unfold createNote. split; [exact Hn|]. cbn [Dialog.storage].
    apply persisted_titled. apply Forall_app. split; [exact Hn|].
    constructor; [|constructor]. apply truthy_true, Ht.
Qed.

(** C1 fails on the code: the card editor hands whatever was typed to
    [updateNote]; clearing the title of a stored note stores a note whose
    trimmed title is empty.  The creation dialog, given the same title,
    writes nothing. *)
Lemma card_editor_stores_blank_title :
  let shown := sample "1" "A" in
  let edited := mkNote "1" "  " EmptyString "2024-05-01T10:00:00.000Z"
                  "2024-05-01T10:00:00.000Z" COLORS_0 [] (Some []) in
  let now := "2024-05-03T09:00:00.000Z" in
  let ls : Storage := setItem "notes" (JSON_stringify [Obj shown]) ∅ in
  persisted ls = Some [Obj shown]
  ∧ titled shown
  ∧ (∃ ls', card_update [shown] ls shown (Some shown) edited now
              = Some (touch edited now, ls')
            ∧ persisted ls' = Some [Obj (touch edited now)])
  ∧ trim (title (touch edited now)) = EmptyString
  ∧ Dialog.storage
      (Dialog.handle "7f6c-0002" (fun _ => now) Dialog.Save
         (Dialog.mkNotebook true (typed_fields "  " EmptyString) None [shown] ls))
    = ls.
Proof.
  cbn zeta. split; [apply persisted_setItem|]. split; [discriminate|].
  split; [|split; reflexivity].
  eexists. split; [reflexivity|]. apply (persisted_notes [_]).
Qed.

(** ** Further properties of the repository *)

Lemma filter_all_true {A} (f : A → bool) (l : list A) :
  (∀ x, x ∈ l → f x = true) → List.filter f l = l.
Proof.
  induction l as [|x l IH]; intros H; [reflexivity|]. cbn.
  rewrite (H x) by apply list_elem_of_here. f_equal. apply IH.
  intros y Hy. apply H, list_elem_of_further, Hy.
Qed.

Lemma filter_idem {A} (f : A → bool) (l : list A) :
  List.filter f (List.filter f l) = List.filter f l.
Proof.
  apply filter_all_true. intros x Hx. apply elem_of_filter_bool in Hx as [_ Hx]. exact Hx.
Qed.

(** X1: whatever happens in the creation dialog, it stores titled notes
    only: when every note of the render and every stored note has a title
    that is not blank, the same holds after any event of the dialog, since
    the draft effect and [handleSave] write under the guard
    [newNote.title.trim()]. *)
Theorem dialog_keeps_titles uuid now (e : Dialog.Event) (s : Dialog.Notebook) :
  Dialog.all_titled s → Dialog.all_titled (Dialog.handle uuid now e s).
Proof.
  intros Hs. destruct e as [open|fields| | |]; cbn [Dialog.handle].
  - destruct (bool_decide _); [exact Hs|]. apply toggled_titled. exact Hs.
  - exact Hs.
  - apply draft_effect_titled; [apply Hs|exact Hs].
  - destruct (bool_decide _); [apply handleSave_titled, Hs|].
    apply toggled_titled, handleSave_titled, Hs.
  - destruct Hs as [Hn (l & Hp & Hl)].
    assert (Hr : refetch (Dialog.storage s) (Obj <$> Dialog.notes s) ≫= as_notes = Some l).
    { unfold refetch. unfold persisted in Hp.
      destruct (queryFn (Dialog.storage s)); [|discriminate].
      rewrite Hp. cbn. apply as_notes_Obj. }
    rewrite Hr. split; [exact Hl|]. exists l. split; [exact Hp|exact Hl].
Qed.

Lemma dialog_keeps_titles_witness :
  Dialog.all_titled
    (Dialog.handle "7f6c-0002"
       (clock "2024-05-02T08:30:00.000Z" "2024-05-02T08:30:00.001Z") Dialog.Save
       (Dialog.mkNotebook true (typed_fields "X" "x") None [sample "1" "A"]
          (setItem "notes" (JSON_stringify [Obj (sample "1" "A")]) ∅))).
Proof.
  apply dialog_keeps_titles. split.
  - repeat constructor. discriminate.
  - exists [sample "1" "A"]. split; [apply (persisted_notes [_])|].
    repeat constructor. discriminate.
Defined.

(** X2: [deleteNote] stores the collection without the notes of the given
    id, the others in their order, and returns the id; when no note has the
    id the stored collection is the collection it was given. *)
Theorem deleteNote_removes (notes : list Note) (ls : Storage) (i : string) :
  let r := deleteNote notes ls i in
  r.1 = i
  ∧ (∃ l : list Note,
        persisted r.2 = Some (Obj <$> l)
        ∧ sublist l notes
        ∧ (∀ n, n ∈ l ↔ n ∈ notes ∧ id n ≠ i)
        ∧ ((i ∉ id <$> notes) → l = notes)).
Proof.
  cbn zeta. unfold deleteNote. cbn [fst snd]. split; [reflexivity|].
  eexists. split; [apply persisted_notes|]. split; [apply filter_sublist|].
  split.
  - intros n. rewrite elem_of_filter_bool, negb_true_iff. 
    destruct (String.eqb_spec (id n) i); split; intros [H1 H2]; (done || split; done).
  - intros Hnot. apply filter_all_true. intros n Hn. apply negb_true_iff.
    apply String.eqb_neq. intros <-. apply Hnot, list_elem_of_fmap. eauto.
Qed.

(** X3: filtering twice with the same criteria is filtering once, and
    filtering with no colour, no tag and an empty search string gives the
    whole collection, whatever [toLowerCase] does. *)
Theorem filteredNotes_idempotent (toLowerCase : string → string)
    (selectedColors selectedTags : list string)
    (searchQuery : string) (notes : list Note) :
  filteredNotes toLowerCase selectedColors selectedTags searchQuery
      (filteredNotes toLowerCase selectedColors selectedTags searchQuery notes)
    = filteredNotes toLowerCase selectedColors selectedTags searchQuery notes
  ∧ filteredNotes toLowerCase [] [] EmptyString notes = notes.
Proof.
  split.
  - assert (H : ∃ keep, ∀ l, filteredNotes toLowerCase selectedColors selectedTags
                                searchQuery l
                                = List.filter keep l).
    { eexists. intros l. unfold filteredNotes. apply filter_twice. }
    destruct H as [keep H]. rewrite !H. apply filter_idem.
  - unfold filteredNotes. cbn. rewrite !filter_all_true; done.
Qed.

(** ** What is stored is what is read *)

Lemma encode_note_inj (a b : Note) :
  print (encode_note a) = print (encode_note b) → a = b.
Proof.
  intros H. apply (f_equal Json.parse) in H.
  rewrite !parse_print in H by apply plain_encode_note.
  assert (H' : encode_note a = encode_note b) by congruence.
  apply (f_equal decode_note) in H'.
  rewrite !decode_encode_note in H'. congruence.
Qed.

(** X4: whatever array a mutation or an effect stores under the key, the
    query function reads back without throwing: the note objects as they
    were, [undefined] entries as [null]; no other key of the storage is
    touched, and two arrays that read back differently are never stored as
    the same text. *)
Theorem stored_notes_read_back (notes : list Slot) (ls : Storage) :
  let ls' := setItem "notes" (JSON_stringify notes) ls in
  (∃ v, queryFn ls' = Returns v ∧ decode_notes v = Some (stored_as <$> notes))
  ∧ (∀ l : list Note, notes = Obj <$> l → persisted ls' = Some (Obj <$> l))
  ∧ (∀ key, key ≠ "notes" → getItem key ls' = getItem key ls)
  ∧ (∀ other : list Slot,
       JSON_stringify other = JSON_stringify notes →
       stored_as <$> other = stored_as <$> notes).
Proof.
  cbn zeta. split.
  { eexists. split; [apply queryFn_setItem|apply decode_encode_notes]. }
  split; [intros l ->; apply persisted_notes|].
  split.
  { intros key Hk. unfold getItem, setItem. apply lookup_insert_ne. congruence. }
  intros other H. apply (f_equal Json.parse) in H.
  rewrite !parse_stringify in H.
  assert (H' : JArray (encode_slot <$> other) = JArray (encode_slot <$> notes))
    by congruence.
  apply (f_equal decode_notes) in H'.
  rewrite !decode_encode_notes in H'. congruence.
Qed.

(** X5: the card editor's effect sends an update exactly when the card is
    the selected one and the edited note differs from the note shown in some
    field, and what it sends is the edited note with [updatedAt] set to the
    clock's reading; a card that is not selected, or whose note was not
    edited, sends nothing. *)
Theorem card_sends_iff (note edited : Note) (selected : option Note)
    (now : string) (u : Note) :
  card_onUpdate note selected edited now = Some u
  ↔ (∃ sel, selected = Some sel ∧ id sel = id note)
    ∧ edited ≠ note
    ∧ u = touch edited now.
Proof.
  unfold card_onUpdate. destruct selected as [sel|].
  - destruct (String.eqb_spec (id sel) (id note)) as [Hid|Hid]; cbn [andb].
    + destruct (String.eqb_spec (print (encode_note edited)) (print (encode_note note)))
        as [Heq|Hne]; cbn [negb].
      * apply encode_note_inj in Heq. split; [discriminate|]. intros (_ & H & _). done.
      * split.
        -- intros [= <-]. split; [eauto|]. split; [|reflexivity]. congruence.
        -- intros (_ & _ & ->). reflexivity.
    + split; [discriminate|]. intros ([sel' [[= <-] H]] & _). done.
  - split; [discriminate|]. intros ([sel' [H _]] & _). discriminate.
Qed.

(** ** Where a moved note lands *)

Lemma placed {A} (l : list A) (i j : nat) (y : A) :
  l !! i = Some y → (j < length l)%nat →
  (take j (delete i l) ++ y :: drop j (delete i l))%list !! j = Some y
  ∧ delete j (take j (delete i l) ++ y :: drop j (delete i l))%list = delete i l
  ∧ length (take j (delete i l) ++ y :: drop j (delete i l))%list = length l.
Proof.
  intros Hy Hj. apply lookup_lt_Some in Hy as Hi.
  set (rest := delete i l).
  assert (Hrest : length rest = (length l - 1)%nat).
  { unfold rest. rewrite length_delete by eauto. reflexivity. }
  assert (Htake : length (take j rest) = j).
  { rewrite length_take. lia. }
  split.
  { rewrite lookup_app_r by lia. rewrite Htake, Nat.sub_diag. reflexivity. }
  split.
  { rewrite delete_take_drop, take_app_length' by done.
    replace (S j) with (length (take j rest) + 1)%nat by lia.
    rewrite drop_app_add. cbn. rewrite drop_0. apply take_drop. }
  rewrite length_app, Htake. cbn. rewrite length_drop. lia.
Qed.

(** X6: for in-range indices, after a move the note that was at [fromIndex]
    is at [toIndex], and the other notes are in the order they were in:
    taking the moved note out of the result gives the same list as taking it
    out of the input.  Moving a note to its own index changes nothing. *)
Theorem moveNote_places (notes : list Note) (ls : Storage) (i j : Z) :
  (0 ≤ i < Z.of_nat (length notes))%Z →
  (0 ≤ j < Z.of_nat (length notes))%Z →
  let m := (moveNote (Obj <$> notes) ls i j).1 in
  m !! Z.to_nat j = Obj <$> notes !! Z.to_nat i
  ∧ delete (Z.to_nat j) m = Obj <$> delete (Z.to_nat i) notes
  ∧ (i = j → m = Obj <$> notes).
Proof.
  intros Hi Hj. cbn zeta. unfold moveNote. cbn [fst].
  destruct (lookup_lt_is_Some_2 notes (Z.to_nat i)) as [y Hy]; [lia|].
  rewrite (moved_notes notes i j y) by (lia || done). rewrite Hy.
  destruct (placed notes (Z.to_nat i) (Z.to_nat j) y Hy) as (Hl & Hd & _); [lia|].
  split; [rewrite list_lookup_fmap, Hl; reflexivity|].
  split; [rewrite <- list_fmap_delete, Hd; reflexivity|].
  intros <-. f_equal. rewrite delete_take_drop.
  rewrite take_app_length' by (rewrite length_take; lia).
  rewrite drop_app_length' by (rewrite length_take; lia).
  apply take_drop_middle, Hy.
Qed.

Lemma moveNote_places_witness :
  let notes := [sample "1" "A"; sample "2" "B"; sample "3" "C"; sample "4" "D"] in
  let m := (moveNote (Obj <$> notes) ∅ 3 1).1 in
  m = Obj <$> [sample "1" "A"; sample "4" "D"; sample "2" "B"; sample "3" "C"]
  ∧ m !! 1%nat = Obj <$> notes !! 3%nat
  ∧ delete 1%nat m = Obj <$> delete 3%nat notes.
Proof.
  cbn zeta. split; [reflexivity|].
  destruct (moveNote_places
              [sample "1" "A"; sample "2" "B"; sample "3" "C"; sample "4" "D"] ∅ 3 1)
    as (H1 & H2 & _); [cbn; lia..|].
  split; [exact H1|exact H2].
Defined.

(** ** Dragging cards in the grid *)

Lemma shown_length (toLowerCase : string → string) (c : Criteria)
    (notes : list Note) :
  (length (shown toLowerCase c notes) ≤ length notes)%nat.
Proof.
  unfold shown, filteredNotes. apply sublist_length.
  etransitivity; apply filter_sublist.
Qed.

(** X7: the indices the grid hands to [onMove] are indices of cards shown,
    so whatever the filter, they are within the collection: such a move
    never inserts [undefined]; it stores and returns a permutation of the
    notes. *)
Theorem grid_move_in_range (toLowerCase : string → string) (c : Criteria)
    (notes : list Note) (ls : Storage) (item index : nat) :
  (item < length (shown toLowerCase c notes))%nat →
  (index < length (shown toLowerCase c notes))%nat →
  ∃ l' : list Note,
    (moveNote (Obj <$> notes) ls (Z.of_nat item) (Z.of_nat index)).1 = Obj <$> l'
    ∧ l' ≡ₚ notes
    ∧ persisted (moveNote (Obj <$> notes) ls (Z.of_nat item) (Z.of_nat index)).2
      = Some (Obj <$> l').
Proof.
  intros Hi Hj. pose proof (shown_length toLowerCase c notes) as Hle.
  destruct (lookup_lt_is_Some_2 notes item) as [y Hy]; [lia|].
  eexists. unfold moveNote. cbn [fst snd].
  rewrite (moved_notes notes (Z.of_nat item) (Z.of_nat index) y)
    by (rewrite ?Nat2Z.id; (lia || done)).
  split; [reflexivity|]. rewrite !Nat2Z.id.
  split; [apply moved_permutation, Hy|apply persisted_notes].
Qed.

Lemma grid_move_in_range_witness :
  let notes := [sample "1" "A"; sample "2" "B"; sample "3" "A, again"] in
  let c := mkCriteria [] [] "a" in
  shown lower_ascii c notes = [sample "1" "A"; sample "3" "A, again"]
  ∧ ∃ l' : list Note,
      (moveNote (Obj <$> notes) ∅ 0 1).1 = Obj <$> l'
      ∧ l' ≡ₚ notes
      ∧ persisted (moveNote (Obj <$> notes) ∅ 0 1).2 = Some (Obj <$> l').
Proof.
  cbn zeta. split; [reflexivity|].
  apply (grid_move_in_range lower_ascii (mkCriteria [] [] "a")
           [sample "1" "A"; sample "2" "B"; sample "3" "A, again"] ∅ 0 1);
    vm_compute; lia.
Defined.

Lemma last_cons_default {A} (x y : A) (l : list A) :
  default x (last (y :: l)) = default y (last l).
Proof.
  revert x y. induction l as [|z l IH]; intros x y; [reflexivity|].
  change (last (y :: z :: l)) with (last (z :: l)).
  rewrite (IH x z), (IH y z). reflexivity.
Qed.

Lemma drag_step (notes : list Note) (ls : Storage) (item index : nat) (x : Note) :
  notes !! item = Some x → (index < length notes)%nat → item ≠ index →
  ∃ l' ls',
    step (mkState (Obj <$> notes) ls) (Reorder (Z.of_nat item) (Z.of_nat index))
      = Some (mkState (Obj <$> l') ls')
    ∧ l' !! index = Some x ∧ l' ≡ₚ notes ∧ length l' = length notes
    ∧ persisted ls' = Some (Obj <$> l').
Proof.
  intros Hx Hj Hne. rewrite step_Reorder.
  rewrite (moved_notes notes (Z.of_nat item) (Z.of_nat index) x)
    by (rewrite ?Nat2Z.id; (lia || done)).
  rewrite !Nat2Z.id.
  destruct (placed notes item index x Hx Hj) as (Hl & _ & Hlen).
  eexists _, _. split; [reflexivity|]. split; [exact Hl|].
  split; [apply moved_permutation, Hx|]. split; [exact Hlen|].
  unfold moveNote. cbn [snd].
  rewrite (moved_notes notes (Z.of_nat item) (Z.of_nat index) x)
    by (rewrite ?Nat2Z.id; (lia || done)).
  rewrite !Nat2Z.id. apply persisted_notes.
Qed.

(** X8: while every note is shown, the drag item's index follows the note
    being dragged: after a drag over any cards of the grid, the dragged note
    is at the index of the card hovered last, the collection is a
    permutation of what it was, and it is the stored one if it was before
    the drag. *)
Theorem drag_follows (toLowerCase : string → string) (c : Criteria)
    (notes : list Note) (ls : Storage)
    (item : nat) (hovered : list nat) (x : Note) :
  shown toLowerCase c notes = notes →
  shown toLowerCase c notes !! item = Some x →
  Forall (fun index => index < length (shown toLowerCase c notes))%nat hovered →
  ∃ (l' : list Note) (ls' : Storage),
    drag (mkState (Obj <$> notes) ls) item hovered
      = Some (mkState (Obj <$> l') ls', default item (last hovered))
    ∧ l' !! default item (last hovered) = Some x
    ∧ l' ≡ₚ notes
    ∧ (persisted ls = Some (Obj <$> notes) → persisted ls' = Some (Obj <$> l')).
Proof.
  intros ->. clear c. revert notes ls item.
  induction hovered as [|index hovered IH]; intros notes ls item Hx Hall.
  { exists notes, ls. cbn. done. }
  apply Forall_cons in Hall as [Hj Hall]. cbn [drag]. unfold hover.
  rewrite (last_cons_default item index hovered).
  destruct (decide (item = index)) as [->|Hne].
  - rewrite bool_decide_eq_false_2 by (intros H; apply H; reflexivity).
    apply IH; done.
  - rewrite bool_decide_eq_true_2 by done.
    destruct (drag_step notes ls item index x Hx Hj Hne)
      as (l1 & ls1 & Hstep & Hl1 & Hp1 & Hlen1 & Hs1).
    rewrite Hstep. cbn [mbind option_bind].
    destruct (IH l1 ls1 index Hl1) as (l' & ls' & Hd & Hl' & Hp' & Hs').
    { rewrite Hlen1. exact Hall. }
    exists l', ls'. split; [exact Hd|]. split; [exact Hl'|].
    split; [etransitivity; eassumption|]. intros _. apply Hs', Hs1.
Qed.

Lemma drag_follows_witness :
  let notes := [sample "1" "A"; sample "2" "B"; sample "3" "C"] in
  ∃ (l' : list Note) (ls' : Storage),
    drag (mkState (Obj <$> notes) ∅) 0 [1; 1; 2]%nat
      = Some (mkState (Obj <$> l') ls', 2%nat)
    ∧ l' !! 2%nat = Some (sample "1" "A")
    ∧ l' ≡ₚ notes
    ∧ (persisted ∅ = Some (Obj <$> notes) → persisted ls' = Some (Obj <$> l')).
Proof.
  apply (drag_follows lower_ascii (mkCriteria [] [] EmptyString)
           [sample "1" "A"; sample "2" "B"; sample "3" "C"] ∅ 0 [1; 1; 2]%nat
           (sample "1" "A")).
  - reflexivity.
  - reflexivity.
  - repeat constructor; vm_compute; lia.
Defined.

(** ** The tags of all notes *)

#[local] Instance str_le_total : Total str_le.
Proof. intros a b. apply String.leb_total. Qed.

Lemma new_Set_from (acc xs : list string) :
  let r := foldl (fun set x => if array_includes set x then set else (set ++ [x])%list)
             acc xs in
  (NoDup acc → NoDup r) ∧ (∀ t, t ∈ r ↔ t ∈ acc ∨ t ∈ xs).
Proof.
  cbn zeta. revert acc. induction xs as [|x xs IH]; intros acc.
  { cbn. split; [done|]. intros t. rewrite elem_of_nil. tauto. }
  cbn [foldl]. destruct (array_includes acc x) eqn:E.
  - apply array_includes_spec in E. destruct (IH acc) as [Hn Hm].
    split; [exact Hn|]. intros t. rewrite Hm, elem_of_cons.
    split; [tauto|]. intros [H|[->|H]]; tauto.
  - assert (Hx : x ∉ acc).
    { intros H. apply array_includes_spec in H. congruence. }
    destruct (IH (acc ++ [x])%list) as [Hn Hm]. split.
    + intros Hacc. apply Hn. apply NoDup_app. split; [exact Hacc|].
      split; [|apply NoDup_singleton].
      intros y Hy Hin. apply list_elem_of_singleton in Hin. congruence.
    + intros t. rewrite Hm, elem_of_app, list_elem_of_singleton, elem_of_cons. tauto.
Qed.

(** X9: the tags offered in the filter menu are exactly the tags of the
    notes, each listed once, in the order of [sort()]: ascending by UTF-16
    code units. *)
Theorem allTags_sorted_distinct (notes : list Note) :
  NoDup (allTags notes)
  ∧ Sorted str_le (allTags notes)
  ∧ (∀ t, t ∈ allTags notes ↔ ∃ n, n ∈ notes ∧ t ∈ tags n).
Proof.
  unfold allTags.
  destruct (new_Set_from [] (List.flat_map tags notes)) as [Hn Hm].
  fold (new_Set (List.flat_map tags notes)) in Hn, Hm.
  split; [rewrite merge_sort_Permutation; apply Hn, NoDup_nil_2|].
  split; [apply Sorted_merge_sort, _|].
  intros t. rewrite merge_sort_Permutation, Hm, elem_of_nil, list_elem_of_In, in_flat_map.
  split.
  - intros [[]|(n & Hin & Ht)]. exists n. rewrite !list_elem_of_In. done.
  - intros (n & Hin & Ht). right. exists n. rewrite <- !list_elem_of_In. done.
Qed.

(** ** Toggling a colour or a tag of the filter *)

Lemma toggle_spec (x : string) (prev : list string) :
  (x ∈ toggle x prev ↔ x ∉ prev)
  ∧ (∀ y, y ≠ x → (y ∈ toggle x prev ↔ y ∈ prev))
  ∧ (NoDup prev → NoDup (toggle x prev))
  ∧ (x ∉ prev → toggle x (toggle x prev) = prev).
Proof.
  unfold toggle at 1 2 3. destruct (array_includes prev x) eqn:E.
  - apply array_includes_spec in E.
    assert (Hin : ∀ y, y ∈ List.filter (fun c => negb (String.eqb c x)) prev
                       ↔ y ∈ prev ∧ y ≠ x).
    { intros y. rewrite elem_of_filter_bool, negb_true_iff, String.eqb_neq. done. }
    split; [rewrite Hin; tauto|]. split; [intros y Hy; rewrite Hin; tauto|].
    split; [|done].
    intros Hnd. eapply sublist_NoDup; [exact Hnd|apply filter_sublist].
  - assert (Hx : x ∉ prev).
    { intros H. apply array_includes_spec in H. congruence. }
    split; [rewrite elem_of_app, list_elem_of_singleton; tauto|].
    split.
    { intros y Hy. rewrite elem_of_app, list_elem_of_singleton. tauto. }
    split.
    { intros Hnd. apply NoDup_app. split; [exact Hnd|].
      split; [|apply NoDup_singleton].
      intros y Hy Hin. apply list_elem_of_singleton in Hin. congruence. }
    intros _. unfold toggle. rewrite E.
    assert (Hinc : array_includes (prev ++ [x]) x = true).
    { apply array_includes_spec, elem_of_app. right. apply list_elem_of_here. }
    rewrite Hinc, List.filter_app. cbn. rewrite String.eqb_refl. cbn.
    rewrite app_nil_r. apply filter_all_true.
    intros y Hy. apply negb_true_iff, String.eqb_neq. congruence.
Qed.

(** X10: toggling a colour (or a tag) of the filter flips whether it is
    selected and nothing else: every other colour and tag and the search
    string stay as they are, a selection without repetition stays so, and
    toggling twice a colour that was not selected gives back the selection. *)
Theorem filter_toggle_flips (x : string) (c : Criteria) :
  let cc := handleColorToggle x c in
  let ct := handleTagToggle x c in
  ((x ∈ selectedColors cc ↔ x ∉ selectedColors c)
   ∧ (∀ y, y ≠ x → (y ∈ selectedColors cc ↔ y ∈ selectedColors c))
   ∧ (NoDup (selectedColors c) → NoDup (selectedColors cc))
   ∧ selectedTags cc = selectedTags c ∧ searchQuery cc = searchQuery c
   ∧ (x ∉ selectedColors c →
      selectedColors (handleColorToggle x cc) = selectedColors c))
  ∧ ((x ∈ selectedTags ct ↔ x ∉ selectedTags c)
     ∧ (∀ y, y ≠ x → (y ∈ selectedTags ct ↔ y ∈ selectedTags c))
     ∧ (NoDup (selectedTags c) → NoDup (selectedTags ct))
     ∧ selectedColors ct = selectedColors c ∧ searchQuery ct = searchQuery c
     ∧ (x ∉ selectedTags c →
        selectedTags (handleTagToggle x ct) = selectedTags c)).
Proof.
  cbn zeta. cbn [handleColorToggle handleTagToggle selectedColors selectedTags searchQuery].
  destruct (toggle_spec x (selectedColors c)) as (A1 & A2 & A3 & A4).
  destruct (toggle_spec x (selectedTags c)) as (B1 & B2 & B3 & B4).
  split; repeat (split; [assumption || reflexivity|]); assumption.
Qed.

(** ** Tags and checklist items of the note being edited *)

Section Strip.

Variable sp2 : ascii → ascii → bool.
Variable sp3 : ascii → ascii → ascii → bool.

Lemma strip_no_lead (s : list ascii) : lead sp2 sp3 s = false → strip sp2 sp3 s = s.
Proof.
  destruct s as [|c1 [|c2 [|c3 s3]]]; cbn; try reflexivity.
  - rewrite orb_false_r. intros ->. reflexivity.
  - rewrite orb_false_r. intros [-> ->]%orb_false_elim. reflexivity.
  - intros [-> [-> ->]%orb_false_elim]%orb_false_elim. reflexivity.
Qed.

(** What [strip] leaves does not start with white space, and it is the end
    of what it was given. *)
Lemma strip_spec (n : nat) (s : list ascii) :
  (length s ≤ n)%nat →
  lead sp2 sp3 (strip sp2 sp3 s) = false ∧ ∃ pre, s = (pre ++ strip sp2 sp3 s)%list.
Proof.
  revert s. induction n as [|n IH]; intros s Hn.
  { destruct s; [|cbn in Hn; lia]. split; [reflexivity|]. exists []. reflexivity. }
  destruct s as [|c1 s1]; [split; [reflexivity|]; exists []; reflexivity|].
  cbn [strip]. cbn [length] in Hn.
  destruct (is_space c1) eqn:E1.
  { destruct (IH s1) as [Hl [pre Hp]]; [lia|]. split; [exact Hl|].
    exists (c1 :: pre). cbn. rewrite <- Hp. reflexivity. }
  destruct s1 as [|c2 s2].
  { split; [cbn; rewrite E1; reflexivity|]. exists []. reflexivity. }
  cbn [length] in Hn. destruct (sp2 c1 c2) eqn:E2.
  { destruct (IH s2) as [Hl [pre Hp]]; [lia|]. split; [exact Hl|].
    exists (c1 :: c2 :: pre). cbn. rewrite <- Hp. reflexivity. }
  destruct s2 as [|c3 s3].
  { split; [cbn; rewrite E1, E2; reflexivity|]. exists []. reflexivity. }
  cbn [length] in Hn. destruct (sp3 c1 c2 c3) eqn:E3.
  { destruct (IH s3) as [Hl [pre Hp]]; [lia|]. split; [exact Hl|].
    exists (c1 :: c2 :: c3 :: pre). cbn. rewrite <- Hp. reflexivity. }
  split; [cbn; rewrite E1, E2, E3; reflexivity|]. exists []. reflexivity.
Qed.

Lemma strip_idem (s : list ascii) : strip sp2 sp3 (strip sp2 sp3 s) = strip sp2 sp3 s.
Proof. apply strip_no_lead, (strip_spec (length s) s). reflexivity. Qed.

Lemma lead_app (s t : list ascii) :
  lead sp2 sp3 s = true → lead sp2 sp3 (s ++ t) = true.
Proof.
  destruct s as [|c1 [|c2 [|c3 s3]]]; cbn; try discriminate.
  - rewrite orb_false_r. intros ->. reflexivity.
  - rewrite orb_false_r. intros [->| ->]%orb_prop; [reflexivity|].
    rewrite orb_true_r. destruct t; reflexivity.
  - intros H. exact H.
Qed.

End Strip.

(** Taking white space off the end puts none at the front. *)
Lemma trimStart_trimEnd (s : string) :
  trimStart (trimEnd (trimStart s)) = trimEnd (trimStart s).
Proof.
  unfold trimStart, trimEnd. rewrite !list_ascii_of_string_of_list_ascii.
  f_equal. apply strip_no_lead.
  set (t := strip is_space2 is_space3 (list_ascii_of_string s)).
  assert (Ht : lead is_space2 is_space3 t = false).
  { apply (strip_spec _ _ (length (list_ascii_of_string s))). reflexivity. }
  set (sp2 := fun c2 c1 => is_space2 c1 c2).
  set (sp3 := fun c3 c2 c1 => is_space3 c1 c2 c3).
  destruct (strip_spec sp2 sp3 (length (rev t)) (rev t)) as [_ [pre Hp]]; [reflexivity|].
  assert (Hsplit : t = (rev (strip sp2 sp3 (rev t)) ++ rev pre)%list).
  { rewrite <- rev_app_distr, <- Hp, rev_involutive. reflexivity. }
  destruct (lead is_space2 is_space3 (rev (strip sp2 sp3 (rev t)))) eqn:E; [|reflexivity].
  apply (lead_app _ _ _ (rev pre)) in E. rewrite <- Hsplit in E. congruence.
Qed.

Lemma trimEnd_idem (s : string) : trimEnd (trimEnd s) = trimEnd s.
Proof.
  unfold trimEnd. rewrite list_ascii_of_string_of_list_ascii, rev_involutive, strip_idem.
  reflexivity.
Qed.

Lemma trim_idem (s : string) : trim (trim s) = trim s.
Proof. unfold trim. rewrite trimStart_trimEnd. apply trimEnd_idem. Qed.

(** X11: [handleAddTag] keeps the tags of a note distinct and never adds a
    blank tag: a tag it adds is the input without surrounding white space,
    not empty and not among the tags yet, put last, and the input is
    cleared; otherwise tags and input stay as they are.  Removing the tag
    just added gives back the tags. *)
Theorem handleAddTag_keeps_distinct (newTag : string) (tgs : list string) :
  let r := handleAddTag newTag tgs in
  (NoDup tgs → NoDup r.1)
  ∧ (r = (tgs, newTag)
     ∨ (r = ((tgs ++ [trim newTag])%list, EmptyString)
        ∧ trim newTag ≠ EmptyString
        ∧ trim (trim newTag) = trim newTag
        ∧ (trim newTag ∉ tgs)
        ∧ handleRemoveTag (trim newTag) r.1 = tgs))
  ∧ (trim newTag ≠ EmptyString → trim newTag ∈ r.1)
  ∧ (trim newTag = EmptyString ∨ trim newTag ∈ tgs → r = (tgs, newTag)).
Proof.
  cbn zeta. unfold handleAddTag.
  destruct (truthy (trim newTag)) eqn:Et; cbn [andb].
  - apply truthy_true in Et.
    destruct (array_includes tgs (trim newTag)) eqn:Ei; cbn [negb fst].
    + apply array_includes_spec in Ei.
      split; [done|]. split; [left; reflexivity|]. split; [done|]. done.
    + assert (Hx : trim newTag ∉ tgs).
      { intros H. apply array_includes_spec in H. congruence. }
      split.
      { intros Hnd. apply NoDup_app. split; [exact Hnd|].
        split; [|apply NoDup_singleton].
        intros y Hy Hin. apply list_elem_of_singleton in Hin. congruence. }
      split.
      { right. split; [reflexivity|]. split; [exact Et|].
        split; [apply trim_idem|]. split; [exact Hx|].
        unfold handleRemoveTag. rewrite List.filter_app. cbn.
        rewrite String.eqb_refl. cbn. rewrite app_nil_r.
        apply filter_all_true. intros y Hy.
        apply negb_true_iff, String.eqb_neq. congruence. }
      split.
      { intros _. apply elem_of_app. right. apply list_elem_of_here. }
      intros [H|H]; done.
  - assert (Hb : trim newTag = EmptyString).
    { destruct (String.eqb_spec (trim newTag) EmptyString) as [H|H]; [exact H|].
      apply truthy_true in H. congruence. }
    cbn [fst]. split; [done|]. split; [left; reflexivity|].
    split; [congruence|]. done.
Qed.

Lemma items_toggle_twice (itemId : string) (l : list ChecklistItem) :
  (fun item =>
     if String.eqb (item_id item) itemId
     then mkItem (item_id item) (item_text item) (negb (item_checked item))
     else item)
  <$> ((fun item =>
          if String.eqb (item_id item) itemId
          then mkItem (item_id item) (item_text item) (negb (item_checked item))
          else item) <$> l) = l.
Proof.
  rewrite <- list_fmap_compose. rewrite <- (list_fmap_id l) at 2.
  apply list_fmap_ext. intros _ [i t c] _. cbn.
  destruct (String.eqb_spec i itemId) as [->|H]; cbn.
  - rewrite String.eqb_refl, negb_involutive. reflexivity.
  - apply String.eqb_neq in H. rewrite H. reflexivity.
Qed.

(** X12: ticking a checklist item twice gives back the checklist; ticking
    an item or editing its text changes neither the ids, nor the order, nor
    the number of the items, and an absent checklist stays absent. *)
Theorem checklist_edits_keep_items (itemId value : string)
    (its : option (list ChecklistItem)) :
  handleToggleItem itemId (handleToggleItem itemId its) = its
  ∧ ((fun l : list ChecklistItem => item_id <$> l) <$> handleToggleItem itemId its) = ((fun l : list ChecklistItem => item_id <$> l) <$> its)
  ∧ ((fun l : list ChecklistItem => item_text <$> l) <$> handleToggleItem itemId its) = ((fun l : list ChecklistItem => item_text <$> l) <$> its)
  ∧ ((fun l : list ChecklistItem => item_id <$> l) <$> handleItemText itemId value its) = ((fun l : list ChecklistItem => item_id <$> l) <$> its)
  ∧ ((fun l : list ChecklistItem => item_checked <$> l) <$> handleItemText itemId value its)
      = ((fun l : list ChecklistItem => item_checked <$> l) <$> its)
  ∧ (its = None →
     handleToggleItem itemId its = None ∧ handleItemText itemId value its = None
     ∧ handleRemoveItem itemId its = None).
Proof.
  destruct its as [l|]; cbn.
  - split; [f_equal; apply items_toggle_twice|].
    repeat split; try discriminate; f_equal; rewrite <- list_fmap_compose;
      apply list_fmap_ext; intros _ [i t c] _; cbn;
      destruct (String.eqb i itemId); reflexivity.
  - repeat split; reflexivity.
Qed.

(** X13: [handleAddItem] does nothing on a blank input; otherwise it puts
    one unchecked item last, with the input without surrounding white space
    as its text, and clears the input.  When the id drawn is not the id of
    an item of the checklist, the ids stay distinct and removing the new item
    gives back the items. *)
Theorem handleAddItem_appends (uuid newItem : string)
    (its : option (list ChecklistItem)) :
  let r := handleAddItem uuid newItem its in
  (trim newItem = EmptyString → r = (its, newItem))
  ∧ (trim newItem ≠ EmptyString →
     r = (Some (default [] its ++ [mkItem uuid (trim newItem) false])%list, EmptyString)
     ∧ trim (trim newItem) = trim newItem
     ∧ ((uuid ∉ item_id <$> default [] its) →
        (NoDup (item_id <$> default [] its) →
         NoDup (item_id <$> default [] r.1))
        ∧ handleRemoveItem uuid r.1 = Some (default [] its))).
Proof.
  cbn zeta. unfold handleAddItem. split.
  - intros ->. reflexivity.
  - intros Ht. apply truthy_true in Ht as Ht'. rewrite Ht'.
    split; [reflexivity|]. split; [apply trim_idem|].
    intros Hfresh. cbn [fst from_option Datatypes.id]. split.
    + intros Hnd. rewrite fmap_app. apply NoDup_app. split; [exact Hnd|].
      split; [|apply NoDup_singleton].
      intros y Hy Hin. cbn in Hin. apply list_elem_of_singleton in Hin. congruence.
    + unfold handleRemoveItem. cbn [fmap option_fmap option_map]. f_equal.
      rewrite List.filter_app. cbn. rewrite String.eqb_refl. cbn.
      rewrite app_nil_r. apply filter_all_true. intros y Hy.
      apply negb_true_iff, String.eqb_neq. intros <-.
      apply Hfresh, list_elem_of_fmap. eauto.
Qed.

Lemma handleAddItem_appends_witness :
  handleAddItem "9a1c" "  eggs " None = (Some [mkItem "9a1c" "eggs" false], EmptyString)
  ∧ handleRemoveItem "9a1c" (handleAddItem "9a1c" "  eggs " None).1 = Some [].
Proof.
  destruct (handleAddItem_appends "9a1c" "  eggs " None) as [_ H].
  destruct H as (H1 & _ & H2); [discriminate|].
  split; [exact H1|]. apply H2. cbn. apply not_elem_of_nil.
Defined.

(** ** The life of a draft *)

Lemma refetched (uuid : string) (now : nat → string) (s : Dialog.Notebook)
    (l : list Note) :
  persisted (Dialog.storage s) = Some (Obj <$> l) →
  Dialog.handle uuid now Dialog.Refetched s
  = Dialog.mkNotebook (Dialog.isModalOpen s) (Dialog.newNote s) (Dialog.draftId s) l
      (Dialog.storage s).
Proof.
  intros Hp. cbn [Dialog.handle].
  assert (Hr : refetch (Dialog.storage s) (Obj <$> Dialog.notes s) ≫= as_notes = Some l).
  { unfold refetch. unfold persisted in Hp.
    destruct (queryFn (Dialog.storage s)); [|discriminate].
    rewrite Hp. cbn. apply as_notes_Obj. }
  rewrite Hr. reflexivity.
Qed.

Lemma map_draft_length (d : option string) (f : NoteFields) (now : nat → string)
    (k : nat) (notes : list Note) :
  length (map_draft d f now k notes) = length notes.
Proof.
  revert k. induction notes as [|n notes IH]; intros k; [reflexivity|].
  cbn [map_draft]. destruct (bool_decide _); cbn [length]; rewrite IH; reflexivity.
Qed.

(** Every note of the draft's id is overwritten, each with a reading of the
    clock of its own; the other notes are kept. *)
Lemma map_draft_lookup (d : string) (f : NoteFields) (now : nat → string)
    (k : nat) (notes : list Note) (i : nat) (old : Note) :
  notes !! i = Some old →
  ∃ j, map_draft (Some d) f now k notes !! i
       = Some (if bool_decide (id old = d) then overwrite old f (now j) else old).
Proof.
  revert k i. induction notes as [|n notes IH]; intros k i Hi; [discriminate|].
  cbn [map_draft]. destruct i as [|i].
  - injection Hi as ->. destruct (decide (id old = d)) as [Heq|Hne].
    + rewrite !bool_decide_eq_true_2 by congruence. exists k. reflexivity.
    + rewrite !bool_decide_eq_false_2 by congruence. exists k. reflexivity.
  - cbn in Hi. destruct (bool_decide (Some (id n) = Some d)); cbn; apply IH, Hi.
Qed.

Lemma map_draft_absent (d : string) (f : NoteFields) (now : nat → string)
    (k : nat) (notes : list Note) :
  (d ∉ id <$> notes) → map_draft (Some d) f now k notes = notes.
Proof.
  revert k. induction notes as [|n notes IH]; intros k Hd; [reflexivity|].
  rewrite fmap_cons in Hd. apply not_elem_of_cons in Hd as [Hn Hrest].
  cbn [map_draft]. rewrite bool_decide_eq_false_2 by congruence.
  f_equal. apply IH, Hrest.
Qed.

(** When the ids are distinct the clock is read once, for the draft. *)
Lemma map_draft_insert (d : string) (f : NoteFields) (now : nat → string)
    (k : nat) (notes : list Note) (i : nat) (old : Note) :
  NoDup (id <$> notes) → notes !! i = Some old → id old = d →
  map_draft (Some d) f now k notes = <[i := overwrite old f (now k)]> notes.
Proof.
  revert i. induction notes as [|n notes IH]; intros i Hnd Hi Hid; [discriminate|].
  rewrite fmap_cons in Hnd. apply NoDup_cons in Hnd as [Hn Hnd].
  cbn [map_draft]. destruct i as [|i].
  - injection Hi as ->. rewrite bool_decide_eq_true_2 by congruence.
    cbn. f_equal. apply map_draft_absent. congruence.
  - cbn in Hi. rewrite bool_decide_eq_false_2.
    + cbn. f_equal. apply IH; done.
    + intros [= H]. apply Hn, list_elem_of_fmap. exists old.
      split; [congruence|]. eapply list_elem_of_lookup_2, Hi.
Qed.

Lemma map_draft_last (notes : list Note) (d : Note) (u : string)
    (fields : NoteFields) (now : nat → string) (k : nat) :
  id d = u → (u ∉ id <$> notes) →
  map_draft (Some u) fields now k (notes ++ [d])%list
  = (notes ++ [overwrite d fields (now k)])%list.
Proof.
  intros <- Hfresh. induction notes as [|n notes IH].
  - cbn. rewrite bool_decide_eq_true_2 by reflexivity. reflexivity.
  - rewrite fmap_cons in Hfresh. apply not_elem_of_cons in Hfresh as [Hn Hrest].
    cbn [app map_draft]. rewrite bool_decide_eq_false_2 by congruence.
    f_equal. apply IH, Hrest.
Qed.

(** X14: the debounced draft effect of the open dialog.  With a blank title
    it writes nothing (a draft whose title was cleared stays stored as it
    was).  With a title and no draft id it stores the render's notes with a
    new draft last, made from the id drawn and two readings of the clock, and
    records the id.  With a title and a draft id it appends nothing: it
    stores the render's notes with the fields of every note of that id
    overwritten by the form, [updatedAt] set to a reading of the clock (the
    first one when the ids are distinct), id and [createdAt] kept. *)
Theorem debounced_draft_sync (uuid : string) (now : nat → string)
    (s : Dialog.Notebook) :
  Dialog.isModalOpen s = true →
  let s' := Dialog.handle uuid now Dialog.Debounced s in
  (trim (f_title (Dialog.newNote s)) = EmptyString → s' = s)
  ∧ (trim (f_title (Dialog.newNote s)) ≠ EmptyString →
     Dialog.isModalOpen s' = true
     ∧ Dialog.newNote s' = Dialog.newNote s
     ∧ (Dialog.draftId s = None →
        Dialog.draftId s' = Some uuid
        ∧ persisted (Dialog.storage s')
          = Some (Obj <$> (Dialog.notes s
                           ++ [draft_of uuid (now 0%nat) (now 1%nat) (Dialog.newNote s)])%list))
     ∧ (∀ d, Dialog.draftId s = Some d → d ≠ EmptyString →
        Dialog.draftId s' = Some d
        ∧ ∃ l : list Note,
            persisted (Dialog.storage s') = Some (Obj <$> l)
            ∧ length l = length (Dialog.notes s)
            ∧ (∀ k old, Dialog.notes s !! k = Some old →
                 ∃ j, l !! k = Some (if bool_decide (id old = d)
                                     then overwrite old (Dialog.newNote s) (now j)
                                     else old))
            ∧ (NoDup (id <$> Dialog.notes s) →
               ∀ k old, Dialog.notes s !! k = Some old → id old = d →
                 l = <[k := overwrite old (Dialog.newNote s) (now 0%nat)]>
                       (Dialog.notes s)))).
Proof.
  intros Ho. cbn zeta. cbn [Dialog.handle]. unfold Dialog.draft_effect.
  rewrite Ho. cbn [andb]. split.
  { intros ->. destruct s. reflexivity. }
  intros Ht. apply truthy_true in Ht. rewrite Ht.
  split; [destruct (negb _); (reflexivity || exact Ho)|].
  split; [destruct (negb _); reflexivity|].
  split.
  - intros ->. cbn [truthy_id negb Dialog.draftId Dialog.storage].
    split; [reflexivity|]. apply persisted_notes.
  - intros d -> Hd. apply truthy_true in Hd. cbn [truthy_id]. rewrite Hd.
    cbn [negb Dialog.draftId Dialog.storage].
    split; [reflexivity|]. eexists. split; [apply persisted_notes|].
    split; [apply map_draft_length|].
    split; [intros k old Hk; apply map_draft_lookup, Hk|].
    intros Hnd k old Hk Hid. apply map_draft_insert; done.
Qed.

Lemma debounced_draft_sync_witness :
  let s := Dialog.mkNotebook true (typed_fields "X" EmptyString) None [sample "1" "A"] ∅ in
  let now := clock "2024-05-02T08:30:00.000Z" "2024-05-02T08:30:00.001Z" in
  let s' := Dialog.handle "7f6c-0002" now Dialog.Debounced s in
  Dialog.draftId s' = Some "7f6c-0002"
  ∧ persisted (Dialog.storage s')
    = Some (Obj <$> [sample "1" "A";
                     draft_of "7f6c-0002" "2024-05-02T08:30:00.000Z"
                       "2024-05-02T08:30:00.001Z" (typed_fields "X" EmptyString)]).
Proof.
  destruct (debounced_draft_sync "7f6c-0002"
              (clock "2024-05-02T08:30:00.000Z" "2024-05-02T08:30:00.001Z")
              (Dialog.mkNotebook true (typed_fields "X" EmptyString) None
                 [sample "1" "A"] ∅) eq_refl) as [_ H].
  destruct H as (_ & _ & H & _); [discriminate|].
  apply H. reflexivity.
Defined.

Lemma save_creates (uuid : string) (now : nat → string) (f : NoteFields)
    (notes : list Note) (ls : Storage) :
  trim (f_title f) ≠ EmptyString →
  Dialog.handle uuid now Dialog.Save (Dialog.mkNotebook true f None notes ls)
  = Dialog.mkNotebook false blank_fields None notes
      (setItem "notes"
         (JSON_stringify
            (Obj <$> (notes ++ [draft_of uuid (now 0%nat) (now 1%nat) f])%list)) ls).
Proof.
  intros Ht. apply truthy_true in Ht. cbn [Dialog.handle]. unfold Dialog.handleSave.
  cbn [Dialog.isModalOpen Dialog.newNote Dialog.draftId Dialog.notes Dialog.storage
       truthy_id].
  rewrite Ht. unfold createNote. cbn [Dialog.isModalOpen].
  rewrite bool_decide_eq_false_2 by discriminate. reflexivity.
Qed.

Lemma save_promotes (uuid : string) (now : nat → string) (d : string)
    (f : NoteFields) (notes : list Note) (ls : Storage) :
  trim (f_title f) ≠ EmptyString → d ≠ EmptyString →
  Dialog.handle uuid now Dialog.Save (Dialog.mkNotebook true f (Some d) notes ls)
  = Dialog.mkNotebook false blank_fields None notes
      (setItem "notes" (JSON_stringify (Obj <$> map_draft (Some d) f now 0 notes)) ls).
Proof.
  intros Ht Hd. apply truthy_true in Ht, Hd. cbn [Dialog.handle].
  unfold Dialog.handleSave.
  cbn [Dialog.isModalOpen Dialog.newNote Dialog.draftId Dialog.notes Dialog.storage
       truthy_id].
  rewrite Ht, Hd. cbn [Dialog.isModalOpen].
  rewrite bool_decide_eq_false_2 by discriminate. reflexivity.
Qed.

(** X15: an explicit save with a title closes the dialog, clears the draft
    id and resets the form.  Without a draft id it stores the render's notes
    with one new note last.  With a draft id whose note the render holds, it
    stores the render's notes with that note overwritten by the form: no note
    is added, and the close effect that follows does not remove it.  With a
    draft id whose note the render does not hold --- a save that comes before
    the refetch of the draft has reached the render --- it stores the
    render's notes as they are: the draft is no longer stored and the form is
    stored nowhere.  Nothing that happens while the dialog stays closed
    writes again. *)
Theorem handleSave_outcomes (uuid : string) (now : nat → string) (s : Dialog.Notebook)
    (later : list Dialog.Event) :
  Dialog.isModalOpen s = true →
  trim (f_title (Dialog.newNote s)) ≠ EmptyString →
  (Dialog.draftId s = None ∨ ∃ d, Dialog.draftId s = Some d ∧ d ≠ EmptyString) →
  NoDup (id <$> Dialog.notes s) →
  forallb Dialog.quiet later = true →
  let s' := Dialog.handle uuid now Dialog.Save s in
  let s'' := Dialog.session uuid now later s' in
  Dialog.isModalOpen s' = false
  ∧ Dialog.draftId s' = None
  ∧ Dialog.newNote s' = blank_fields
  ∧ (Dialog.draftId s = None →
     persisted (Dialog.storage s')
     = Some (Obj <$> (Dialog.notes s
                      ++ [draft_of uuid (now 0%nat) (now 1%nat) (Dialog.newNote s)])%list))
  ∧ (∀ d k old, Dialog.draftId s = Some d → Dialog.notes s !! k = Some old →
       id old = d →
       persisted (Dialog.storage s')
       = Some (Obj <$> <[k := overwrite old (Dialog.newNote s) (now 0%nat)]>
                         (Dialog.notes s)))
  ∧ (∀ d, Dialog.draftId s = Some d → (d ∉ id <$> Dialog.notes s) →
       persisted (Dialog.storage s') = Some (Obj <$> Dialog.notes s))
  ∧ Dialog.storage s'' = Dialog.storage s'
  ∧ Dialog.draftId s'' = None.
Proof.
  intros Ho Ht Hd Hnd Hlater. cbn zeta.
  destruct s as [o f dr notes ls]. cbn [Dialog.isModalOpen Dialog.newNote
    Dialog.draftId Dialog.notes Dialog.storage] in *. subst o.
  assert (Hs' : ∃ l, Dialog.handle uuid now Dialog.Save
                       (Dialog.mkNotebook true f dr notes ls)
                     = Dialog.mkNotebook false blank_fields None notes
                         (setItem "notes" (JSON_stringify (Obj <$> l)) ls)
                     ∧ (dr = None → l = (notes ++ [draft_of uuid (now 0%nat) (now 1%nat) f])%list)
                     ∧ (∀ d, dr = Some d → l = map_draft (Some d) f now 0 notes)).
  { destruct Hd as [->|(d & -> & Hne)].
    - eexists. split; [apply save_creates, Ht|]. split; [reflexivity|discriminate].
    - eexists. split; [apply save_promotes; done|]. split; [discriminate|].
      intros d' [= <-]. reflexivity. }
  destruct Hs' as (l & -> & Hnone & Hsome).
  destruct (closed_session uuid now later
              (Dialog.mkNotebook false blank_fields None notes
                 (setItem "notes" (JSON_stringify (Obj <$> l)) ls)) eq_refl Hlater)
    as (_ & Hd'' & Hs'').
  cbn [Dialog.isModalOpen Dialog.newNote Dialog.draftId Dialog.storage].
  split; [reflexivity|]. split; [reflexivity|]. split; [reflexivity|].
  split.
  { intros H. rewrite persisted_notes, (Hnone H). reflexivity. }
  split.
  { intros d k old H Hk Hid. rewrite persisted_notes, (Hsome d H).
    rewrite (map_draft_insert d f now 0 notes k old); done. }
  split.
  { intros d H Habs. rewrite persisted_notes, (Hsome d H), map_draft_absent; done. }
  split; [exact Hs''|exact Hd''].
Qed.

Lemma handleSave_outcomes_witness :
  let draft := draft_of "7f6c-0002" "2024-05-02T08:30:00.000Z"
                 "2024-05-02T08:30:00.001Z" (typed_fields "X" EmptyString) in
  let now := clock "2024-05-02T08:31:00.000Z" "2024-05-02T08:31:00.001Z" in
  let ls : Storage :=
    setItem "notes" (JSON_stringify (Obj <$> [sample "1" "A"; draft])) ∅ in
  let s := Dialog.mkNotebook true (typed_fields "Xy" "text") (Some "7f6c-0002")
             [sample "1" "A"; draft] ls in
  let stale := Dialog.mkNotebook true (typed_fields "Xy" "text") (Some "7f6c-0002")
                 [sample "1" "A"] ls in
  (Dialog.isModalOpen (Dialog.handle "0000" now Dialog.Save s) = false
   ∧ Dialog.draftId (Dialog.handle "0000" now Dialog.Save s) = None
   ∧ persisted (Dialog.storage (Dialog.handle "0000" now Dialog.Save s))
     = Some (Obj <$> [sample "1" "A";
                      overwrite draft (typed_fields "Xy" "text")
                        "2024-05-02T08:31:00.000Z"]))
  ∧ persisted (Dialog.storage stale) = Some (Obj <$> [sample "1" "A"; draft])
  ∧ persisted (Dialog.storage (Dialog.handle "0000" now Dialog.Save stale))
    = Some (Obj <$> [sample "1" "A"]).
Proof.
  cbn zeta. split; [|split; [apply persisted_notes|]].
  - destruct (handleSave_outcomes "0000"
                (clock "2024-05-02T08:31:00.000Z" "2024-05-02T08:31:00.001Z")
                (Dialog.mkNotebook true (typed_fields "Xy" "text") (Some "7f6c-0002")
                   [sample "1" "A";
                    draft_of "7f6c-0002" "2024-05-02T08:30:00.000Z"
                      "2024-05-02T08:30:00.001Z" (typed_fields "X" EmptyString)]
                   (setItem "notes"
                      (JSON_stringify
                         (Obj <$> [sample "1" "A";
                                   draft_of "7f6c-0002" "2024-05-02T08:30:00.000Z"
                                     "2024-05-02T08:30:00.001Z"
                                     (typed_fields "X" EmptyString)])) ∅)) [])
      as (H1 & H2 & _ & _ & H3 & _).
    + reflexivity.
    + discriminate.
    + right. eexists. split; [reflexivity|discriminate].
    + apply (bool_decide_unpack _). vm_compute. exact I.
    + reflexivity.
    + split; [exact H1|]. split; [exact H2|].
      apply (H3 "7f6c-0002" 1%nat
               (draft_of "7f6c-0002" "2024-05-02T08:30:00.000Z"
                  "2024-05-02T08:30:00.001Z" (typed_fields "X" EmptyString)));
        reflexivity.
  - destruct (handleSave_outcomes "0000"
                (clock "2024-05-02T08:31:00.000Z" "2024-05-02T08:31:00.001Z")
                (Dialog.mkNotebook true (typed_fields "Xy" "text") (Some "7f6c-0002")
                   [sample "1" "A"]
                   (setItem "notes"
                      (JSON_stringify
                         (Obj <$> [sample "1" "A";
                                   draft_of "7f6c-0002" "2024-05-02T08:30:00.000Z"
                                     "2024-05-02T08:30:00.001Z"
                                     (typed_fields "X" EmptyString)])) ∅)) [])
      as (_ & _ & _ & _ & _ & H4 & _).
    + reflexivity.
    + discriminate.
    + right. eexists. split; [reflexivity|discriminate].
    + apply (bool_decide_unpack _). vm_compute. exact I.
    + reflexivity.
    + apply (H4 "7f6c-0002"); [reflexivity|].
      cbn. intros H. apply list_elem_of_singleton in H. discriminate.
Defined.

Lemma debounced_creates (uuid : string) (now : nat → string) (f : NoteFields)
    (notes : list Note) (ls : Storage) :
  trim (f_title f) ≠ EmptyString →
  Dialog.handle uuid now Dialog.Debounced (Dialog.mkNotebook true f None notes ls)
  = Dialog.mkNotebook true f (Some uuid) notes
      (setItem "notes"
         (JSON_stringify
            (Obj <$> (notes ++ [draft_of uuid (now 0%nat) (now 1%nat) f])%list)) ls).
Proof.
  intros Ht. apply truthy_true in Ht. cbn [Dialog.handle]. unfold Dialog.draft_effect.
  cbn [Dialog.isModalOpen Dialog.newNote Dialog.draftId Dialog.notes Dialog.storage
       andb truthy_id negb].
  rewrite Ht. reflexivity.
Qed.

Lemma debounced_updates (uuid : string) (now : nat → string) (d : string)
    (f : NoteFields) (notes : list Note) (ls : Storage) :
  trim (f_title f) ≠ EmptyString → d ≠ EmptyString →
  Dialog.handle uuid now Dialog.Debounced (Dialog.mkNotebook true f (Some d) notes ls)
  = Dialog.mkNotebook true f (Some d) notes
      (setItem "notes" (JSON_stringify (Obj <$> map_draft (Some d) f now 0 notes)) ls).
Proof.
  intros Ht Hd. apply truthy_true in Ht, Hd. cbn [Dialog.handle].
  unfold Dialog.draft_effect.
  cbn [Dialog.isModalOpen Dialog.newNote Dialog.draftId Dialog.notes Dialog.storage
       andb truthy_id].
  rewrite Ht, Hd. reflexivity.
Qed.

(** X16: a whole session of the creation dialog.  Opening the blank dialog,
    typing a title, letting the draft be stored, editing on, letting the
    draft be synchronised and saving leaves the stored collection as it was
    before the dialog was opened plus exactly one note, last: it has the id
    drawn when the draft was created, the first reading of the clock at that
    time as [createdAt], the reading of the clock at the save as
    [updatedAt], and the fields of the form as they were saved.  The id drawn
    must be non-empty and not the id of a note, which is what [uuidv4] is
    relied on for. *)
Theorem drafted_then_saved (notes : list Note) (ls : Storage) (f1 f2 : NoteFields)
    (uuid : string) (now1 now2 now3 : nat → string) :
  uuid ≠ EmptyString →
  (uuid ∉ id <$> notes) →
  trim (f_title f1) ≠ EmptyString →
  trim (f_title f2) ≠ EmptyString →
  let s0 := Dialog.mkNotebook false blank_fields None notes ls in
  let s1 := Dialog.session uuid now1
              [Dialog.SetOpen true; Dialog.Edit f1; Dialog.Debounced; Dialog.Refetched] s0 in
  let s2 := Dialog.session uuid now2
              [Dialog.Edit f2; Dialog.Debounced; Dialog.Refetched] s1 in
  let s3 := Dialog.session uuid now3 [Dialog.Save; Dialog.Refetched] s2 in
  let saved :=
    {| id := uuid; createdAt := now1 0%nat; updatedAt := now3 0%nat;
       title := f_title f2; content := f_content f2; color := f_color f2;
       tags := f_tags f2; items := f_items f2 |} in
  persisted (Dialog.storage s1)
  = Some (Obj <$> (notes ++ [draft_of uuid (now1 0%nat) (now1 1%nat) f1])%list)
  ∧ s3 = Dialog.mkNotebook false blank_fields None (notes ++ [saved])%list
           (Dialog.storage s3)
  ∧ persisted (Dialog.storage s3) = Some (Obj <$> (notes ++ [saved])%list).
Proof.
  intros Hu Hfresh Ht1 Ht2. cbn zeta.
  unfold Dialog.session. cbn [foldl].
  assert (Hopen : Dialog.handle uuid now1 (Dialog.SetOpen true)
                    (Dialog.mkNotebook false blank_fields None notes ls)
                  = Dialog.mkNotebook true blank_fields None notes ls) by reflexivity.
  rewrite Hopen.
  change (Dialog.handle uuid now1 (Dialog.Edit f1)
            (Dialog.mkNotebook true blank_fields None notes ls))
    with (Dialog.mkNotebook true f1 None notes ls).
  rewrite (debounced_creates uuid now1 f1 notes ls Ht1).
  erewrite (refetched uuid now1) by apply persisted_notes.
  cbn [Dialog.isModalOpen Dialog.newNote Dialog.draftId Dialog.storage].
  split; [apply persisted_notes|].
  match goal with |- context [Dialog.handle uuid now2 (Dialog.Edit f2) ?st] =>
    change (Dialog.handle uuid now2 (Dialog.Edit f2) st)
      with (Dialog.mkNotebook true f2 (Some uuid) (Dialog.notes st) (Dialog.storage st))
  end.
  cbn [Dialog.notes Dialog.storage].
  rewrite (debounced_updates uuid now2 uuid f2) by done.
  rewrite (map_draft_last notes (draft_of uuid (now1 0%nat) (now1 1%nat) f1) uuid f2
             now2 0 eq_refl Hfresh).
  erewrite (refetched uuid now2) by apply persisted_notes.
  cbn [Dialog.isModalOpen Dialog.newNote Dialog.draftId Dialog.storage].
  rewrite (save_promotes uuid now3 uuid f2) by done.
  rewrite (map_draft_last notes
             (overwrite (draft_of uuid (now1 0%nat) (now1 1%nat) f1) f2 (now2 0%nat))
             uuid f2 now3 0 eq_refl Hfresh).
  erewrite (refetched uuid now3) by apply persisted_notes.
  cbn [Dialog.isModalOpen Dialog.newNote Dialog.draftId Dialog.storage].
  split; [reflexivity|]. apply persisted_notes.
Qed.

Lemma drafted_then_saved_witness :
  let s0 := Dialog.mkNotebook false blank_fields None [sample "1" "A"] ∅ in
  let s1 := Dialog.session "7f6c-0002"
              (clock "2024-05-02T08:30:00.000Z" "2024-05-02T08:30:00.001Z")
              [Dialog.SetOpen true; Dialog.Edit (typed_fields "G" EmptyString);
               Dialog.Debounced; Dialog.Refetched] s0 in
  let s2 := Dialog.session "7f6c-0002"
              (clock "2024-05-02T08:30:05.000Z" "2024-05-02T08:30:05.001Z")
              [Dialog.Edit (typed_fields "Groceries" "milk, eggs");
               Dialog.Debounced; Dialog.Refetched] s1 in
  let s3 := Dialog.session "7f6c-0002"
              (clock "2024-05-02T08:30:09.000Z" "2024-05-02T08:30:09.001Z")
              [Dialog.Save; Dialog.Refetched] s2 in
  persisted (Dialog.storage s3)
  = Some (Obj <$> [sample "1" "A";
                   mkNote "7f6c-0002" "Groceries" "milk, eggs"
                     "2024-05-02T08:30:00.000Z" "2024-05-02T08:30:09.000Z"
                     COLORS_0 [] (Some [])]).
Proof.
  cbn zeta.
  apply (drafted_then_saved [sample "1" "A"] ∅ (typed_fields "G" EmptyString)
           (typed_fields "Groceries" "milk, eggs") "7f6c-0002"
           (clock "2024-05-02T08:30:00.000Z" "2024-05-02T08:30:00.001Z")
           (clock "2024-05-02T08:30:05.000Z" "2024-05-02T08:30:05.001Z")
           (clock "2024-05-02T08:30:09.000Z" "2024-05-02T08:30:09.001Z")).
  - discriminate.
  - cbn. intros H. apply list_elem_of_singleton in H. discriminate.
  - discriminate.
  - discriminate.
Defined.

(** ** How the mutations compose *)

Lemma filter_after_append_fresh (notes : list Note) (n : Note) :
  (id n ∉ id <$> notes) →
  List.filter (fun note => negb (String.eqb (id note) (id n))) (notes ++ [n])%list
  = notes.
Proof.
  intros Hfresh. rewrite List.filter_app. cbn. rewrite String.eqb_refl. cbn.
  rewrite app_nil_r. apply filter_all_true. intros y Hy.
  apply negb_true_iff, String.eqb_neq. intros H.
  apply Hfresh, list_elem_of_fmap. eauto.
Qed.

(** X17: creating a note and then deleting the id it was given leaves the
    component and the storage with the collection as it was before, provided
    the id was not the id of a note already (deleting removes every note of
    the id). *)
Theorem create_then_delete (notes : list Note) (ls : Storage)
    (uuid now now' : string) (note : NoteFields) :
  (uuid ∉ id <$> notes) →
  ∃ s1 s2,
    run (mkState (Obj <$> notes) ls) [Create uuid now now' note; Delete uuid] = [s1; s2]
    ∧ cache s1 = Obj <$> (notes ++ [(createNote notes ls uuid now now' note).1])%list
    ∧ cache s2 = Obj <$> notes
    ∧ persisted (localStorage s2) = Some (Obj <$> notes).
Proof.
  intros Hfresh. cbn [run]. rewrite step_Create, step_Delete.
  eexists _, _. split; [reflexivity|]. cbn [cache localStorage].
  split; [reflexivity|].
  assert (Hf : List.filter (fun n => negb (String.eqb (id n) uuid))
                 (notes ++ [(createNote notes ls uuid now now' note).1])%list = notes).
  { apply (filter_after_append_fresh notes (createNote notes ls uuid now now' note).1).
    exact Hfresh. }
  split; [rewrite Hf; reflexivity|].
  unfold deleteNote. cbn [snd]. rewrite Hf. apply persisted_notes.
Qed.

Lemma create_then_delete_witness :
  ∃ s1 s2,
    run (mkState (Obj <$> [sample "1" "A"]) ∅)
      [Create "7f6c-0002" "2024-05-02T08:30:00.000Z" "2024-05-02T08:30:00.001Z"
         (typed_fields "B" "b");
       Delete "7f6c-0002"] = [s1; s2]
    ∧ cache s1
      = Obj <$> ([sample "1" "A"]
                 ++ [(createNote [sample "1" "A"] ∅ "7f6c-0002"
                        "2024-05-02T08:30:00.000Z" "2024-05-02T08:30:00.001Z"
                        (typed_fields "B" "b")).1])%list
    ∧ cache s2 = Obj <$> [sample "1" "A"]
    ∧ persisted (localStorage s2) = Some (Obj <$> [sample "1" "A"]).
Proof.
  apply (create_then_delete [sample "1" "A"] ∅ "7f6c-0002"
           "2024-05-02T08:30:00.000Z" "2024-05-02T08:30:00.001Z" (typed_fields "B" "b")).
  cbn. intros H. apply list_elem_of_singleton in H. discriminate.
Defined.

Lemma filter_comm {A} (f g : A → bool) (l : list A) :
  List.filter f (List.filter g l) = List.filter g (List.filter f l).
Proof.
  rewrite !filter_twice. apply List.filter_ext. intros x. apply andb_comm.
Qed.

(** X18: deleting the same id twice, or sending the same update twice, gives
    what doing it once gives, and two deletions give the same collection in
    either order. *)
Theorem repeated_mutations (notes : list Note) (ls : Storage) (i j : string) (u : Note) :
  let s := mkState (Obj <$> notes) ls in
  (∃ s1 s2, run s [Delete i; Delete i] = [s1; s2]
            ∧ cache s2 = cache s1
            ∧ persisted (localStorage s2) = Some (cache s1))
  ∧ (∃ s1 s2, run s [Update u; Update u] = [s1; s2]
              ∧ cache s2 = cache s1
              ∧ persisted (localStorage s2) = Some (cache s1))
  ∧ (∃ s1 s2 s1' s2',
        run s [Delete i; Delete j] = [s1; s2]
        ∧ run s [Delete j; Delete i] = [s1'; s2']
        ∧ cache s2 = cache s2'
        ∧ persisted (localStorage s2) = persisted (localStorage s2')).
Proof.
  cbn zeta. split; [|split].
  - cbn [run]. rewrite !step_Delete. eexists _, _. split; [reflexivity|].
    cbn [cache localStorage]. rewrite filter_idem. split; [reflexivity|].
    unfold deleteNote. cbn [snd]. rewrite filter_idem. apply persisted_notes.
  - cbn [run]. rewrite !step_Update. eexists _, _. split; [reflexivity|].
    cbn [cache localStorage].
    assert (Hm : (fun note => if String.eqb (id note) (id u) then u else note)
                 <$> ((fun note => if String.eqb (id note) (id u) then u else note)
                        <$> notes)
                 = (fun note => if String.eqb (id note) (id u) then u else note)
                     <$> notes).
    { rewrite <- list_fmap_compose. apply list_fmap_ext. intros _ n _. cbn.
      destruct (String.eqb_spec (id n) (id u)) as [H|H].
      - rewrite String.eqb_refl. reflexivity.
      - apply String.eqb_neq in H. rewrite H. reflexivity. }
    rewrite Hm. split; [reflexivity|].
    unfold updateNote. cbn [snd]. rewrite Hm. apply persisted_notes.
  - cbn [run]. rewrite !step_Delete. eexists _, _, _, _.
    split; [reflexivity|]. split; [reflexivity|]. cbn [cache localStorage].
    rewrite (filter_comm (fun note => negb (String.eqb (id note) j))).
    split; [reflexivity|].
    unfold deleteNote. cbn [snd]. rewrite !persisted_notes.
    rewrite (filter_comm (fun note => negb (String.eqb (id note) j))). reflexivity.
Qed.

(** ** The search ignores case *)

Lemma ci_equal_empty (a b : string) :
  ci_equal a b = true → String.eqb a EmptyString = String.eqb b EmptyString.
Proof. destruct a, b; cbn; (reflexivity || discriminate). Qed.

(** X19: on ASCII text the search does not look at the case of the query:
    two queries that are the same up to the case of their letters show the
    same notes, whatever colours and tags are selected. *)
Theorem search_ignores_query_case (toLowerCase : string → string) (c : Criteria)
    (q : string) (notes : list Note) :
  lowers_ascii toLowerCase →
  ascii_text (searchQuery c) = true →
  ascii_text q = true →
  Forall ascii_note notes →
  ci_equal (searchQuery c) q = true →
  shown toLowerCase (mkCriteria (selectedColors c) (selectedTags c) q) notes
  = shown toLowerCase c notes.
Proof.
  intros Hl Hc Hq Hn Hci. unfold shown. cbn [selectedColors selectedTags searchQuery].
  rewrite !(filteredNotes_ascii toLowerCase) by done.
  unfold filteredNotes. apply List.filter_ext. intros n.
  rewrite (ci_equal_empty _ _ Hci).
  apply lower_ascii_same in Hci. rewrite Hci. reflexivity.
Qed.

Lemma search_ignores_query_case_witness :
  let notes := [sample "1" "Groceries"; sample "2" "Taxes"] in
  shown lower_ascii (mkCriteria [] [] "GROC") notes = [sample "1" "Groceries"]
  ∧ shown lower_ascii (mkCriteria [] [] "groc") notes
    = shown lower_ascii (mkCriteria [] [] "GROC") notes.
Proof.
  cbn zeta. split; [reflexivity|].
  apply (search_ignores_query_case lower_ascii (mkCriteria [] [] "GROC") "groc"
           [sample "1" "Groceries"; sample "2" "Taxes"]).
  - intros s _. reflexivity.
  - reflexivity.
  - reflexivity.
  - repeat constructor.
  - reflexivity.
Defined.

(** ** The card and the note it is given *)

(** X20: a card keeps what was typed into it as long as the note it is
    given is the note it was given before; as soon as it is given a note
    that differs in some field, the typed text is replaced by that note. *)
Theorem card_sync_replaces_on_change (note prevNote editedNote : Note) :
  (note = prevNote → card_sync note prevNote editedNote = (editedNote, prevNote))
  ∧ (note ≠ prevNote → card_sync note prevNote editedNote = (note, note))
  ∧ (card_sync note prevNote editedNote).2 = note.
Proof.
  unfold card_sync.
  destruct (String.eqb_spec (print (encode_note note)) (print (encode_note prevNote)))
    as [Heq|Hne]; cbn [negb snd].
  - apply encode_note_inj in Heq. split; [done|]. split; [done|]. congruence.
  - split; [|done]. intros ->. done.
Qed.
